(** * pygreynoise: the GreyNoise API client and its utility functions

    A shallow embedding of [src/greynoise/util.py] ([validate_ip],
    [load_config], [save_config]) and [src/greynoise/api.py] (the [GreyNoise]
    client), and the properties of the client's contract proved over it.

    Python values are dynamically typed: the values the client handles are
    embedded as the inductive type [json] (what [response.json()] returns),
    the arguments of its methods as [pyvalue], exceptions as the inductive
    type [exn], and a function that may raise returns a [result].  The HTTP
    session is a script of the responses the server will give, one per
    request, together with the log of the requests sent; the methods of the
    client are state transformers over it.  [load_config] is a state
    transformer over the log, with the configuration file and the
    environment as inputs.

    A text is a sequence of characters with code points below 256.  What
    the code takes from libraries is modelled from their documentation and
    from CPython 3 on Linux: [socket.inet_aton] from inet(3), [int] and [str]
    (without the limit that Python 3.11 puts on conversions of more than 4300
    digits), [strftime] as glibc writes the fields of a date, ConfigParser
    with its interpolation of [%] in values. *)

From Stdlib Require Import ZArith String Ascii List Lia.
From stdpp Require Import gmap strings list fin_maps pretty.

#[local] Set Warnings "-register-all".
#[local] Open Scope string_scope.
#[local] Open Scope list_scope.
#[local] Open Scope Z_scope.

(** ** Python values, exceptions and results *)

Module Py.

(** The values of [response.json()]: [None], booleans, integers, texts, lists
    and dictionaries with text keys.  Numbers with a fraction are left out. *)
Inductive json : Type :=
| JNull
| JBool (b : bool)
| JInt (n : Z)
| JStr (s : string)
| JList (l : list json)
| JObj (d : gmap string json).

(** A value a caller can pass to the client: a [json] value, a tuple, a
    [datetime.date] or a [datetime.datetime]. *)
Inductive pyvalue : Type :=
| Plain (v : json)
| Tuple (t : list json)
| Date (year month day : Z)
| DateTime (year month day hour minute second : Z).

(** The messages of the [ValueError]s, before formatting:
    [InvalidIPAddress ip] stands for ["Invalid IP address: {!r}".format(ip)];
    [EmbeddedNullCharacter] is the message of a call into C that is handed a
    text with a NUL character, [InvalidInterpolationSyntax value] the one of
    [ConfigParser.set] on a value with a [%] it cannot read. *)
Inductive message : Type :=
| InvalidIPAddress (ip_address : json)
| DateMustBeDate
| IpAddressesMustBeList
| EmbeddedNullCharacter
| InvalidInterpolationSyntax (value : string).

(** The exceptions.  [ValueError] is the invalid-argument error, raised on
    an argument by the client and by the libraries it calls, and
    [RequestFailure] the request failure of the client.  The errors of
    [response.json()] and of [int()], which Python derives from [ValueError],
    are kept apart from it.  [SocketError] is
    [socket.error]; [JSONDecodeError] is what [response.json()] raises on a
    body that is not JSON, [ConnectionError] what [session.get] raises when
    no response arrives; [NoSectionError], [NoOptionError], [ParsingError]
    and the three interpolation errors are ConfigParser's, [IntValueError] is
    the error of [int()]. *)
Inductive exn : Type :=
| ValueError (msg : message)
| RequestFailure (status_code : Z) (content : string)
| KeyError (key : string)
| TypeError
| AttributeError
| SocketError
| JSONDecodeError
| ConnectionError
| NoSectionError
| NoOptionError
| ParsingError
| InterpolationSyntaxError
| InterpolationMissingOptionError
| InterpolationDepthError
| IntValueError (text : string).

Inductive result (A : Type) : Type :=
| Ok (a : A)
| Raise (e : exn).
Arguments Ok {A} a.
Arguments Raise {A} e.

(** [bool(v)]: the truth value of a value, as [while not complete] takes it. *)
Definition truthy (v : json) : bool :=
  match v with
  | JNull => false
  | JBool b => b
  | JInt n => negb (Z.eqb n 0)
  | JStr s => negb (String.eqb s "")
  | JList l => match l with [] => false | _ => true end
  | JObj d => negb (bool_decide (d = ∅))
  end.

(** [d.get(key, default)] on a value: only a dictionary has [get]. *)
Definition get (v : json) (key : string) (default : json) : result json :=
  match v with
  | JObj d => Ok (match d !! key with Some x => x | None => default end)
  | _ => Raise AttributeError
  end.

(** [v[key]] with a text key: [KeyError] on a dictionary without the key,
    [TypeError] on every other value. *)
Definition getitem (v : json) (key : string) : result json :=
  match v with
  | JObj d => match d !! key with Some x => Ok x | None => Raise (KeyError key) end
  | _ => Raise TypeError
  end.

(** [v[key] = x] with a text key. *)
Definition setitem (v : json) (key : string) (x : json) : result json :=
  match v with
  | JObj d => Ok (JObj (<[key := x]> d))
  | _ => Raise TypeError
  end.

(** The one-character texts of a text, as iterating over it yields them. *)
Fixpoint chars (s : string) : list json :=
  match s with
  | EmptyString => []
  | String c s' => JStr (String c EmptyString) :: chars s'
  end.

(** [iter(v)]: the elements a [for] loop or [list.extend] draws from a value.
    A dictionary yields its keys (here in the order of the map, not in the
    order of insertion). *)
Definition iterate (v : json) : result (list json) :=
  match v with
  | JList l => Ok l
  | JStr s => Ok (chars s)
  | JObj d => Ok (JStr <$> (map_to_list d).*1)
  | JNull | JBool _ | JInt _ => Raise TypeError
  end.

(** [v.extend(w)]: only a list has [extend]; the attribute is looked up
    before the argument is iterated. *)
Definition extend (v w : json) : result json :=
  match v with
  | JList l => match iterate w with
               | Ok l' => Ok (JList (l ++ l'))
               | Raise e => Raise e
               end
  | _ => Raise AttributeError
  end.

(** [len(v)]. *)
Definition len (v : json) : result Z :=
  match v with
  | JList l => Ok (Z.of_nat (length l))
  | JStr s => Ok (Z.of_nat (String.length s))
  | JObj d => Ok (Z.of_nat (size d))
  | JNull | JBool _ | JInt _ => Raise TypeError
  end.

(** [c in s] for a character. *)
Fixpoint contains (c : ascii) (s : string) : bool :=
  match s with
  | EmptyString => false
  | String c' s' => Ascii.eqb c' c || contains c s'
  end.

(** [str(n)] of an integer: its decimal digits, after a [-] when negative. *)
Definition str_int (n : Z) : string := pretty n.

(** [str(v)] of a value that is not a list or a dictionary. *)
Definition str (v : json) : option string :=
  match v with
  | JNull => Some "None"
  | JBool b => Some (if b then "True" else "False")
  | JInt n => Some (str_int n)
  | JStr s => Some s
  | JList _ | JObj _ => None
  end.

(** A number zero-padded to [width] digits, as [strftime] writes the fields
    of a date. *)
Fixpoint zeros (k : nat) : string :=
  match k with
  | O => ""
  | S k' => String "0" (zeros k')
  end.

Definition zero_pad (width : nat) (n : Z) : string :=
  let digits := str_int n in
  zeros (width - String.length digits) +:+ digits.

(** Code with effects: a state of type [S] is threaded through, and an
    exception ends the computation with the state reached so far. *)
Definition stateful (S A : Type) : Type := S -> result A * S.

Definition ret {S A} (a : A) : stateful S A := fun s => (Ok a, s).

Definition raise {S A} (e : exn) : stateful S A := fun s => (Raise e, s).

Definition bind {S A B} (c : stateful S A) (k : A -> stateful S B) : stateful S B :=
  fun s =>
    match c s with
    | (Ok a, s') => k a s'
    | (Raise e, s') => (Raise e, s')
    end.

(** A list comprehension and a [for] loop whose body may raise: the first
    exception ends it. *)
Fixpoint filterM {A} (p : A -> result bool) (l : list A) : result (list A) :=
  match l with
  | [] => Ok []
  | x :: l' =>
      match p x with
      | Raise e => Raise e
      | Ok b =>
          match filterM p l' with
          | Raise e => Raise e
          | Ok r => Ok (if b then x :: r else r)
          end
      end
  end.

Fixpoint mapM {A B} (f : A -> result B) (l : list A) : result (list B) :=
  match l with
  | [] => Ok []
  | x :: l' =>
      match f x with
      | Raise e => Raise e
      | Ok y =>
          match mapM f l' with
          | Raise e => Raise e
          | Ok r => Ok (y :: r)
          end
      end
  end.

(** A call that has no effect on the state. *)
Definition lift {S A} (r : result A) : stateful S A := fun s => (r, s).

End Py.
Export Py.

Notation "x <- c ;; k" := (bind c (fun x => k))
  (at level 100, c at level 99, k at level 200, only parsing).
Notation "c ;; k" := (bind c (fun _ => k))
  (at level 100, k at level 200, only parsing).

(** ** [greynoise/util.py] *)

Module Util.

(** *** [socket.inet_aton]

    [validate_ip] hands the text to [socket.inet_aton], the C library's
    [inet_aton] (inet(3)): up to four numbers separated by dots, each written
    as in C (decimal, octal with a leading [0], hexadecimal with a leading
    [0x]), the last one filling the bytes that remain; after the last number
    the text ends or an ASCII blank follows.  [inet_aton] is the function of
    C on the characters of the text; a text with a NUL character never
    reaches it (see [socket_inet_aton]). *)

Definition code (c : ascii) : Z := Z.of_N (N_of_ascii c).

Definition isdigit (c : ascii) : bool := (48 <=? code c) && (code c <=? 57).

Definition isascii (c : ascii) : bool := code c <? 128.

Definition isspace (c : ascii) : bool :=
  (code c =? 32) || ((9 <=? code c) && (code c <=? 13)).

(** The value of a character as a digit in [base], if it is one. *)
Definition digit_of (base : Z) (c : ascii) : option Z :=
  let n := code c in
  let v := if (48 <=? n) && (n <=? 57) then Some (n - 48)
           else if (97 <=? n) && (n <=? 122) then Some (n - 87)
           else if (65 <=? n) && (n <=? 90) then Some (n - 55)
           else None in
  match v with
  | Some d => if d <? base then Some d else None
  | None => None
  end.

(** The longest run of digits of [base] at the head of [cp]: its value on top
    of [acc], and the text that is left. *)
Fixpoint strtoul_digits (base acc : Z) (cp : string) : Z * string :=
  match cp with
  | EmptyString => (acc, cp)
  | String c cp' =>
      match digit_of base c with
      | Some d => strtoul_digits base (acc * base + d) cp'
      | None => (acc, cp)
      end
  end.

(** [strtoul (cp, &endp, 0)] on a text that starts with a decimal digit: the
    base is 16 after [0x] or [0X] followed by a hexadecimal digit, 8 after
    another leading [0], 10 otherwise.  The value is not cut to the width of
    [unsigned long]: [inet_aton] refuses every value above [0xffffffff], and
    the saturated one as well. *)
Definition strtoul (cp : string) : Z * string :=
  match cp with
  | String c0 (String x (String h rest)) =>
      if Ascii.eqb c0 "0" then
        if (Ascii.eqb x "x" || Ascii.eqb x "X")
           && bool_decide (is_Some (digit_of 16 h))
        then strtoul_digits 16 0 (String h rest)
        else strtoul_digits 8 0 cp
      else strtoul_digits 10 0 cp
  | String c0 _ =>
      if Ascii.eqb c0 "0" then strtoul_digits 8 0 cp
      else strtoul_digits 10 0 cp
  | EmptyString => (0, cp)
  end.

(** The loop of [inet_aton]: the bytes stored so far, the last number and the
    text after it.  [free] counts the bytes that may still be stored before
    the last number (three at the start). *)
Fixpoint inet_aton_parts (free : nat) (bytes : list Z) (cp : string)
  : option (list Z * Z * string) :=
  match cp with
  | EmptyString => None
  | String c _ =>
      if negb (isdigit c) then None
      else
        let '(val, endp) := strtoul cp in
        if 4294967295 <? val then None
        else
          match endp with
          | String dot cp' =>
              if Ascii.eqb dot "." then
                match free with
                | O => None
                | S free' =>
                    if 255 <? val then None
                    else inet_aton_parts free' (bytes ++ [val]) cp'
                end
              else Some (bytes, val, endp)
          | EmptyString => Some (bytes, val, endp)
          end
  end.

(** The largest last number after 0, 1, 2 and 3 stored bytes. *)
Definition max_last : list Z := [4294967295; 16777215; 65535; 255].

(** The 32-bit address: the stored bytes from the top, the last number in
    the bytes that remain. *)
Fixpoint address (bytes : list Z) (shift : Z) (val : Z) : Z :=
  match bytes with
  | [] => val
  | b :: bytes' => Z.lor (Z.shiftl b shift) (address bytes' (shift - 8) val)
  end.

Definition inet_aton (cp : string) : option Z :=
  match inet_aton_parts 3 [] cp with
  | None => None
  | Some (bytes, val, endp) =>
      let trailing :=
        match endp with
        | EmptyString => true
        | String c _ => isascii c && isspace c
        end in
      if negb trailing then None
      else if nth (length bytes) max_last 0 <? val then None
      else Some (address bytes 24 val)
  end.

(** [socket.inet_aton(ip_address)]: [TypeError] on a value that is no text,
    [ValueError] on a text with a NUL character, which cannot be handed to C,
    and [socket.error] on a text that is no address. *)
Definition socket_inet_aton (ip_address : json) : result Z :=
  match ip_address with
  | JStr s =>
      if contains "000" s then Raise (ValueError EmbeddedNullCharacter)
      else
        match inet_aton s with
        | Some packed => Ok packed
        | None => Raise SocketError
        end
  | _ => Raise TypeError
  end.

(** *** [validate_ip]

    [except socket.error] catches [socket.error] and nothing else.  (The
    warning sent to the logger is left out.) *)
Definition validate_ip (ip_address : json) (strict : bool) : result bool :=
  match socket_inet_aton ip_address with
  | Ok _ => Ok true
  | Raise SocketError =>
      let error_message := InvalidIPAddress ip_address in
      if strict then Raise (ValueError error_message)
      else Ok false
  | Raise e => Raise e
  end.

(** *** Configuration

    The configuration is a dictionary with three fields. *)
Record config : Type := {
  api_key : string;
  api_server : string;
  timeout : Z;
}.

Definition DEFAULT_CONFIG : config :=
  {| api_key := "";
     api_server := "https://enterprise.api.greynoise.io";
     timeout := 60 |}.

(** [{key: str(value) for key, value in DEFAULT_CONFIG.items()}] *)
Definition default_items (c : config) : gmap string string :=
  {[ "api_key" := api_key c;
     "api_server" := api_server c;
     "timeout" := str_int (timeout c) ]}.

(** [int(text)]: a decimal integer with an optional sign, blanks around it
    ignored, single underscores allowed between its digits.  The blanks are
    those of ASCII, the next-line character (133) and the no-break space
    (160); below 256 the only digits are those of ASCII. *)
Definition int_space (c : ascii) : bool :=
  isspace c || (code c =? 133) || (code c =? 160).

Fixpoint lstrip (s : string) : string :=
  match s with
  | String c s' => if int_space c then lstrip s' else s
  | EmptyString => s
  end.

Fixpoint blank (s : string) : bool :=
  match s with
  | String c s' => int_space c && blank s'
  | EmptyString => true
  end.

(** The digits after the first one, each of them possibly after one
    underscore: the value on top of [acc] and the text that is left; nothing
    when an underscore is not followed by a digit.  [underscore] tells that
    the character before was one. *)
Fixpoint int_digits_from (underscore : bool) (acc : Z) (s : string)
  : option (Z * string) :=
  match s with
  | String c s' =>
      if isdigit c then int_digits_from false (acc * 10 + (code c - 48)) s'
      else if underscore then None
      else if Ascii.eqb c "_" then int_digits_from true acc s'
      else Some (acc, s)
  | EmptyString => if underscore then None else Some (acc, s)
  end.

Definition int_digits (s : string) : option Z :=
  match s with
  | String c s' =>
      if isdigit c then
        match int_digits_from false (code c - 48) s' with
        | Some (v, rest) => if blank rest then Some v else None
        | None => None
        end
      else None
  | EmptyString => None
  end.

Definition int (text : string) : option Z :=
  match lstrip text with
  | String c s' =>
      if Ascii.eqb c "-" then Z.opp <$> int_digits s'
      else if Ascii.eqb c "+" then int_digits s'
      else int_digits (String c s')
  | EmptyString => None
  end.

(** A ConfigParser: the defaults and the options of each section (other than
    [[DEFAULT]]), all texts, stored as they are given. *)
Record config_parser : Type := {
  defaults : gmap string string;
  sections : gmap string (gmap string string);
}.

(** [optionxform], the lower case of the name of an option. *)
Definition lower_char (c : ascii) : ascii :=
  let n := code c in
  if ((65 <=? n) && (n <=? 90))
     || ((192 <=? n) && (n <=? 222) && negb (n =? 215))
  then ascii_of_N (Z.to_N (n + 32))
  else c.

Fixpoint lower (s : string) : string :=
  match s with
  | EmptyString => EmptyString
  | String c s' => String (lower_char c) (lower s')
  end.

Definition optionxform (option : string) : string := lower option.

(** *** Interpolation

    In a value [%%] stands for a [%] and [%(name)s] for the value of the
    option [name] of the same section or of the defaults; every other [%] is
    an error.  A reference is [%(], one or more characters other than [)],
    and [)s]. *)
Inductive scanning : Type :=
| Text
| Percent
| Name (name : string)
| Closed (name : string).

(** [value.replace("%%", "")] *)
Fixpoint remove_escaped (value : string) : string :=
  match value with
  | String a (String b rest as value') =>
      if Ascii.eqb a "%" && Ascii.eqb b "%" then remove_escaped rest
      else String a (remove_escaped value')
  | _ => value
  end.

(** Whether no [%] is left once the references are removed from a text: from
    the left, every [%] starts a reference. *)
Fixpoint only_references (state : scanning) (rest : string) : bool :=
  match rest with
  | EmptyString => match state with Text => true | _ => false end
  | String c rest' =>
      match state with
      | Text =>
          if Ascii.eqb c "%" then only_references Percent rest'
          else only_references Text rest'
      | Percent =>
          if Ascii.eqb c "(" then only_references (Name "") rest' else false
      | Name name =>
          if Ascii.eqb c ")" then
            if String.eqb name "" then false else only_references (Closed name) rest'
          else only_references (Name (name +:+ String c "")) rest'
      | Closed name =>
          if Ascii.eqb c "s" then only_references Text rest' else false
      end
  end.

(** [before_set]: the check of a value that is set. *)
Definition before_set (value : string) : result string :=
  if only_references Text (remove_escaped value) then Ok value
  else Raise (ValueError (InvalidInterpolationSyntax value)).

Definition MAX_INTERPOLATION_DEPTH : nat := 10.

(** [before_get]: the value with its references replaced, the values they
    stand for interpolated in turn, [depth] levels deep at most. *)
Fixpoint interpolate (depth : nat) (map : gmap string string)
  : scanning -> string -> result string :=
  match depth with
  | O => fun _ _ => Raise InterpolationDepthError
  | S depth' =>
      fix scan (state : scanning) (rest : string) : result string :=
        match rest with
        | EmptyString =>
            match state with
            | Text => Ok ""
            | _ => Raise InterpolationSyntaxError
            end
        | String c rest' =>
            match state with
            | Text =>
                if Ascii.eqb c "%" then scan Percent rest'
                else
                  match scan Text rest' with
                  | Ok text => Ok (String c text)
                  | Raise e => Raise e
                  end
            | Percent =>
                if Ascii.eqb c "%" then
                  match scan Text rest' with
                  | Ok text => Ok (String "%" text)
                  | Raise e => Raise e
                  end
                else if Ascii.eqb c "(" then scan (Name "") rest'
                else Raise InterpolationSyntaxError
            | Name name =>
                if Ascii.eqb c ")" then
                  if String.eqb name "" then Raise InterpolationSyntaxError
                  else scan (Closed name) rest'
                else scan (Name (name +:+ String c "")) rest'
            | Closed name =>
                if Ascii.eqb c "s" then
                  match map !! optionxform name with
                  | None => Raise InterpolationMissingOptionError
                  | Some v =>
                      match (if contains "%" v then interpolate depth' map Text v
                             else Ok v) with
                      | Ok replaced =>
                          match scan Text rest' with
                          | Ok text => Ok (replaced +:+ text)
                          | Raise e => Raise e
                          end
                      | Raise e => Raise e
                      end
                  end
                else Raise InterpolationSyntaxError
            end
        end
  end.

Definition before_get (map : gmap string string) (value : string) : result string :=
  interpolate MAX_INTERPOLATION_DEPTH map Text value.

Definition ConfigParser (defaults : gmap string string) : config_parser :=
  {| defaults := defaults; sections := ∅ |}.

Definition add_section (cp : config_parser) (section : string) : config_parser :=
  {| defaults := defaults cp; sections := <[section := ∅]> (sections cp) |}.

(** [config_parser.set(section, option, value)]: the value is checked before
    the section is looked up. *)
Definition set (cp : config_parser) (section option value : string)
  : result config_parser :=
  match before_set value with
  | Raise e => Raise e
  | Ok value =>
      match sections cp !! section with
      | Some options =>
          Ok {| defaults := defaults cp;
                sections :=
                  <[section := <[optionxform option := value]> options]> (sections cp) |}
      | None => Raise NoSectionError
      end
  end.

(** [config_parser.get(section, option)]: the option of the section, else the
    default of that name, interpolated over the options of the section and
    the defaults. *)
Definition get (cp : config_parser) (section option : string) : result string :=
  match sections cp !! section with
  | Some options =>
      let map := options ∪ defaults cp in
      match map !! optionxform option with
      | Some value => before_get map value
      | None => Raise NoOptionError
      end
  | None => Raise NoSectionError
  end.

(** [config_parser.getint(section, option)] *)
Definition getint (cp : config_parser) (section option : string) : result Z :=
  match get cp section option with
  | Ok value =>
      match int value with
      | Some n => Ok n
      | None => Raise (IntValueError value)
      end
  | Raise e => Raise e
  end.

(** The configuration file: absent, not in the format ConfigParser reads, or
    the options of its sections (those of [[DEFAULT]] are defaults). *)
Inductive config_file : Type :=
| Absent
| Malformed
| Content (file_sections : gmap string (gmap string string)).

(** [config_parser.readfp(config_file)]: the options of the file are laid over
    the ones the parser has. *)
Definition readfp (cp : config_parser) (file_sections : gmap string (gmap string string))
  : config_parser :=
  {| defaults := default ∅ (file_sections !! "DEFAULT") ∪ defaults cp;
     sections :=
       union_with (λ new old, Some (new ∪ old))
                  (delete "DEFAULT" file_sections) (sections cp) |}.

(** The calls of the logger: the level and the message before formatting. *)
Inductive level : Type := DEBUG | WARNING | ERROR.

Definition log_entry : Type := level * string.

Definition LOGGER (l : level) (msg : string) : stateful (list log_entry) unit :=
  fun log => (Ok tt, log ++ [(l, msg)]).

(** [load_config()]: the file and [os.environ] are its inputs; the state
    threaded through is the log. *)
Definition load_config (file : config_file) (environ : gmap string string)
  : stateful (list log_entry) config :=
  let config_parser :=
    add_section (ConfigParser (default_items DEFAULT_CONFIG)) "greynoise" in
  config_parser <-
    match file with
    | Content file_sections =>
        LOGGER DEBUG "Parsing configuration file: %s..." ;;
        ret (readfp config_parser file_sections)
    | Malformed =>
        LOGGER DEBUG "Parsing configuration file: %s..." ;;
        raise ParsingError
    | Absent =>
        LOGGER WARNING "Configuration file not found: %s" ;;
        ret config_parser
    end ;;
  config_parser <-
    match environ !! "GREYNOISE_API_KEY" with
    | Some api_key =>
        LOGGER DEBUG "API key found in environment variable: %s" ;;
        lift (set config_parser "greynoise" "api_key" api_key)
    | None => ret config_parser
    end ;;
  config_parser <-
    match environ !! "GREYNOISE_API_SERVER" with
    | Some api_server =>
        LOGGER DEBUG "API server found in environment variable: %s" ;;
        lift (set config_parser "greynoise" "api_server" api_server)
    | None => ret config_parser
    end ;;
  config_parser <-
    match environ !! "GREYNOISE_TIMEOUT" with
    | Some timeout =>
        match int timeout with
        | None =>
            LOGGER ERROR
              "GREYNOISE_TIMEOUT environment variable cannot be converted to an integer: %r" ;;
            ret config_parser
        | Some _ =>
            LOGGER DEBUG "Timeout found in environment variable: %s" ;;
            lift (set config_parser "greynoise" "timeout" timeout)
        end
    | None => ret config_parser
    end ;;
  api_key <- lift (get config_parser "greynoise" "api_key") ;;
  api_server <- lift (get config_parser "greynoise" "api_server") ;;
  timeout <- lift (getint config_parser "greynoise" "timeout") ;;
  ret {| api_key := api_key; api_server := api_server; timeout := timeout |}.

(** *** [save_config]

    What [save_config] touches outside the program: whether the directory of
    the configuration file is there, and the file.  (That creating the
    directory or opening the file can fail is left out.) *)
Record filesystem : Type := {
  config_dir : bool;
  config_file_ : config_file;
}.

(** [config_parser.set(section, option, value)] with a value of any type:
    ConfigParser takes texts only. *)
Definition set_value (cp : config_parser) (section option : string) (value : json)
  : result config_parser :=
  match value with
  | JStr text => set cp section option text
  | _ => Raise TypeError
  end.

(** [config_parser.write(config_file)]: the defaults, when there are some, go
    to the section [[DEFAULT]]. *)
Definition write (cp : config_parser) : gmap string (gmap string string) :=
  if bool_decide (defaults cp = ∅) then sections cp
  else <["DEFAULT" := defaults cp]> (sections cp).

Section SaveConfig.

(** [str] of a list and of a dictionary is not given by [Py.str]: it is a
    parameter here. *)
Variable str_container : json -> string.

(** [str(value)] *)
Definition str_value (value : json) : string :=
  default (str_container value) (str value).

Definition save_config (config : json) : stateful filesystem unit :=
  let config_parser := add_section (ConfigParser ∅) "greynoise" in
  api_key <- lift (getitem config "api_key") ;;
  config_parser <- lift (set_value config_parser "greynoise" "api_key" api_key) ;;
  api_server <- lift (getitem config "api_server") ;;
  config_parser <- lift (set_value config_parser "greynoise" "api_server" api_server) ;;
  timeout <- lift (getitem config "timeout") ;;
  config_parser <-
    lift (set config_parser "greynoise" "timeout" (str_value timeout)) ;;
  fun fs =>
    let fs := if negb (config_dir fs)
              then {| config_dir := true; config_file_ := config_file_ fs |}
              else fs in
    (Ok tt, {| config_dir := config_dir fs;
               config_file_ := Content (write config_parser) |}).

End SaveConfig.

End Util.

(** ** [greynoise/api.py] *)

Module Api.

(** *** The HTTP session

    A request as [session.get(url, headers=, timeout=, params=, json=)] sends
    it, and a response: its status, its body and the value the body decodes
    to, if it is JSON. *)
Record request : Type := {
  method : string;
  url : string;
  headers : gmap string string;
  request_timeout : Z;
  params : gmap string json;
  json_payload : option json;
}.

Record response : Type := {
  status_code : Z;
  content : string;
  decoded : option json;
}.

(** The responses the server will give, in order, and the requests sent. *)
Record session : Type := {
  script : list response;
  sent : list request;
}.

Definition session_get (url : string) (headers : gmap string string) (timeout : Z)
    (params : gmap string json) (json_ : option json) : stateful session response :=
  fun s =>
    let s' pending :=
      {| script := pending;
         sent := sent s ++ [{| method := "GET"; url := url; headers := headers;
                               request_timeout := timeout; params := params;
                               json_payload := json_ |}] |} in
    match script s with
    | [] => (Raise ConnectionError, s' [])
    | r :: pending => (Ok r, s' pending)
    end.

(** [response.json()] *)
Definition response_json (r : response) : result json :=
  match decoded r with
  | Some v => Ok v
  | None => Raise JSONDecodeError
  end.

(** [n in range(start, stop)] *)
Definition in_range (n start stop : Z) : bool := (start <=? n) && (n <? stop).

(** [sep.join(parts)] *)
Fixpoint join (sep : string) (parts : list string) : string :=
  match parts with
  | [] => ""
  | [p] => p
  | p :: parts' => p +:+ sep +:+ join sep parts'
  end.

(** *** The client *)
Record GreyNoise : Type := {
  api_key : string;
  timeout : Z;
}.

Definition NAME : string := "GreyNoise".
Definition BASE_URL : string := "https://enterprise.api.greynoise.io".
Definition CLIENT_VERSION : Z := 1.
Definition API_VERSION : string := "v2".
Definition EP_NOISE_BULK : string := "noise/bulk".
Definition EP_NOISE_BULK_DATE (date : string) : string := "noise/bulk/" +:+ date.
Definition EP_NOISE_QUICK (ip_address : string) : string := "noise/quick/" +:+ ip_address.
Definition EP_NOISE_MULTI : string := "noise/multi/quick".
Definition EP_NOISE_CONTEXT (ip_address : string) : string := "noise/context/" +:+ ip_address.
Definition EP_RESEARCH_ACTORS : string := "research/actors".
Definition UNKNOWN_CODE_MESSAGE (code : string) : string := "Code message unknown: " +:+ code.

Definition CODE_MESSAGES : gmap string string :=
  {[ "0x00" := "IP has never been observed scanning the Internet";
     "0x01" := "IP has been observed by the GreyNoise sensor network";
     "0x02" := "IP has been observed scanning the GreyNoise sensor network, but has not completed a full connection, meaning this can be spoofed";
     "0x03" := "IP is adjacent to another host that has been directly observed by the GreyNoise sensor network";
     "0x04" := "RESERVED";
     "0x05" := "IP is commonly spoofed in Internet-scan activity";
     "0x06" := "IP has been observed as noise, but this host belongs to a cloud provider where IPs can be cycled frequently";
     "0x07" := "IP is invalid";
     "0x08" := "IP was classified as noise, but has not been observed engaging in Internet-wide scans or attacks in over 60 days" ]}.

(** [GreyNoise(api_key=None, timeout=7)] *)
Definition init (api_key : option string) (timeout : option Z)
    (file : Util.config_file) (environ : gmap string string)
  : stateful (list Util.log_entry) GreyNoise :=
  api_key <-
    match api_key with
    | None => config <- Util.load_config file environ ;; ret (Util.api_key config)
    | Some api_key => ret api_key
    end ;;
  ret {| api_key := api_key; timeout := default 7 timeout |}.

Definition _request (self : GreyNoise) (endpoint : string)
    (params : option (gmap string json)) (json_ : option json)
  : stateful session json :=
  let params := default ∅ params in
  let headers : gmap string string :=
    {[ "X-Request-Client" := "pyGreyNoise v" +:+ str_int CLIENT_VERSION;
       "key" := api_key self ]} in
  let url := join "/" [BASE_URL; API_VERSION; endpoint] in
  response <- session_get url headers (timeout self) params json_ ;;
  if negb (in_range (status_code response) 200 299) then
    raise (RequestFailure (status_code response) (content response))
  else lift (response_json response).

(** [date.strftime("%Y-%m-%d")], the [strftime] of the C library: glibc
    writes the year as it is, without leading zeros, and the month and the day
    on two digits. *)
Definition strftime_DATE_FORMAT (year month day : Z) : string :=
  str_int year +:+ "-" +:+ zero_pad 2 month +:+ "-" +:+ zero_pad 2 day.

(** The [while not complete] loop of [get_noise].  Every turn takes one
    response of the script, so the loop is written by recursion on the
    responses left: the body runs on the session they belong to, and the loop
    goes on with the responses after the one the body took.  (With no
    response left [_request] raises, so the body does not end well there.) *)
Fixpoint while_not_complete (self : GreyNoise) (endpoint : string)
    (noise_ips offset complete : json)
    (pending : list response) (sent : list request) {struct pending}
  : result json * session :=
  if truthy complete then (Ok noise_ips, {| script := pending; sent := sent |})
  else
    let body : stateful session (json * json * json) :=
      response <- _request self endpoint (Some {[ "offset" := offset ]}) None ;;
      more <- lift (Py.get response "noise_ips" (JList [])) ;;
      noise_ips <- lift (extend noise_ips more) ;;
      offset <- lift (Py.get response "offset" (JInt (-1))) ;;
      complete <- lift (getitem response "complete") ;;
      ret (noise_ips, offset, complete) in
    match body {| script := pending; sent := sent |}, pending with
    | (Ok (noise_ips, offset, complete), s'), _ :: pending' =>
        while_not_complete self endpoint noise_ips offset complete
                           pending' (Api.sent s')
    | (Ok _, s'), [] => (Raise ConnectionError, s')
    | (Raise e, s'), _ => (Raise e, s')
    end.

Definition get_noise (self : GreyNoise) (date : pyvalue) : stateful session json :=
  endpoint <-
    match date with
    | Plain JNull => ret EP_NOISE_BULK
    | Date year month day | DateTime year month day _ _ _ =>
        ret (EP_NOISE_BULK_DATE (strftime_DATE_FORMAT year month day))
    | _ => raise (ValueError DateMustBeDate)
    end ;;
  response <- _request self endpoint None None ;;
  noise_ips <- lift (Py.get response "noise_ips" (JList [])) ;;
  offset <- lift (Py.get response "offset" (JInt (-1))) ;;
  complete <- lift (getitem response "complete") ;;
  noise_ips <-
    (fun s => while_not_complete self endpoint noise_ips offset complete
                                 (script s) (sent s)) ;;
  lift (len noise_ips) ;;
  ret noise_ips.

(** [self.CODE_MESSAGES.get(code, self.UNKNOWN_CODE_MESSAGE.format(code))]:
    the default is formatted first; the key of the lookup must be hashable,
    which a list and a dictionary are not ([TypeError]); the keys of the
    table are texts, so a key that is not a text is not found. *)
Definition code_message (code : json) : result string :=
  match str code with
  | None => Raise TypeError
  | Some text =>
      let fallback := UNKNOWN_CODE_MESSAGE text in
      Ok (match code with
          | JStr c => default fallback (CODE_MESSAGES !! c)
          | _ => fallback
          end)
  end.

(** The three lines that attach [code_message] to a result. *)
Definition attach_code_message (result_ : json) : result json :=
  match getitem result_ "code" with
  | Raise e => Raise e
  | Ok code =>
      match code_message code with
      | Raise e => Raise e
      | Ok message => setitem result_ "code_message" (JStr message)
      end
  end.

Definition get_noise_status (self : GreyNoise) (ip_address : string)
  : stateful session json :=
  lift (Util.validate_ip (JStr ip_address) true) ;;
  let endpoint := EP_NOISE_QUICK ip_address in
  result_ <- _request self endpoint None None ;;
  lift (attach_code_message result_).

Definition get_noise_status_bulk (self : GreyNoise) (ip_addresses : pyvalue)
  : stateful session json :=
  match ip_addresses with
  | Plain (JList ip_addresses) =>
      ip_addresses <-
        lift (filterM (fun ip_address => Util.validate_ip ip_address false)
                      ip_addresses) ;;
      results <- _request self EP_NOISE_MULTI None
                          (Some (JObj {[ "ips" := JList ip_addresses ]})) ;;
      items <- lift (iterate results) ;;
      items <- lift (mapM attach_code_message items) ;;
      ret (match results with JList _ => JList items | _ => results end)
  | _ => raise (ValueError IpAddressesMustBeList)
  end.

Definition get_context (self : GreyNoise) (ip_address : string)
  : stateful session json :=
  lift (Util.validate_ip (JStr ip_address) true) ;;
  let endpoint := EP_NOISE_CONTEXT ip_address in
  response <- _request self endpoint None None ;;
  ret response.

Definition get_actors (self : GreyNoise) : stateful session json :=
  response <- _request self EP_RESEARCH_ACTORS None None ;;
  ret response.

End Api.

(** * Statements

    The definitions the properties are stated with. *)

Import Api.

(** The request [_request] sends. *)
Definition request_of (self : GreyNoise) (endpoint : string)
    (params : gmap string json) (json_ : option json) : request :=
  {| method := "GET";
     url := BASE_URL +:+ "/" +:+ API_VERSION +:+ "/" +:+ endpoint;
     headers := {[ "X-Request-Client" := "pyGreyNoise v1"; "key" := api_key self ]};
     request_timeout := timeout self;
     params := params;
     json_payload := json_ |}.

(** What [_request] makes of the response it gets. *)
Definition outcome (r : response) : result json :=
  if in_range (status_code r) 200 299 then response_json r
  else Raise (RequestFailure (status_code r) (content r)).

(** A text, as opposed to any other value. *)
Definition is_text (v : json) : Prop := exists s, v = JStr s.

(** A text without a NUL character: the texts that [socket.inet_aton] hands
    to the C library. *)
Definition nul_free (text : string) : bool := negb (contains "000" text).

Definition text_without_nul (v : json) : Prop :=
  exists s, v = JStr s /\ nul_free s = true.

(** The message the specification attaches to a code: the message of the
    table for a code of the table, the unknown-code template with the code
    interpolated for any other. *)
Inductive attached_message : json -> string -> Prop :=
| message_known c m :
    CODE_MESSAGES !! c = Some m -> attached_message (JStr c) m
| message_unknown code text :
    (forall c, code = JStr c -> CODE_MESSAGES !! c = None) ->
    str code = Some text ->
    attached_message code ("Code message unknown: " +:+ text).

(** A result with a [code] that is not a list or a dictionary, and the same
    result with the message of its code attached as [code_message]. *)
Definition scalar_code (item : json) : Prop :=
  exists d code, item = JObj d /\ d !! "code" = Some code /\ is_Some (str code).

Definition annotated (item item' : json) : Prop :=
  exists d code m,
    item = JObj d /\ d !! "code" = Some code /\ attached_message code m /\
    item' = JObj (<["code_message" := JStr m]> d).

(** The elements of a list that [validate_ip] accepts. *)
Definition accepted (v : json) : bool :=
  match v with
  | JStr s => bool_decide (is_Some (Util.inet_aton s))
  | _ => false
  end.

(** *** Concrete inputs *)

Definition client : GreyNoise := {| api_key := "secret"; timeout := 7 |}.

(** A response with status 200 whose body decodes to [v]. *)
Definition answer (v : json) : response :=
  {| status_code := 200; content := "<body>"; decoded := Some v |}.

Definition session_of (responses : list response) : session :=
  {| script := responses; sent := [] |}.

Definition unknown_code : json := JObj {[ "ip" := JStr "8.8.8.8"; "code" := JStr "0x99" ]}.
Definition known_code : json := JObj {[ "ip" := JStr "8.8.8.8"; "code" := JStr "0x05" ]}.
Definition list_code : json := JObj {[ "ip" := JStr "8.8.8.8"; "code" := JList [] ]}.
Definition no_code_fields : gmap string json :=
  {[ "ip" := JStr "8.8.8.8"; "noise" := JBool false ]}.
Definition no_code : json := JObj no_code_fields.

(** *** The pages of [get_noise]

    What the code reads in the value of a response: the addresses (none when
    [noise_ips] is missing), the offset ([-1] when [offset] is missing) and
    the [complete] field. *)
Definition page_ips (page : json) : list json :=
  match page with
  | JObj d => match d !! "noise_ips" with Some (JList l) => l | _ => [] end
  | _ => []
  end.

Definition page_offset (page : json) : json :=
  match page with
  | JObj d => default (JInt (-1)) (d !! "offset")
  | _ => JInt (-1)
  end.

Definition page_complete (page : json) : option json :=
  match page with
  | JObj d => d !! "complete"
  | _ => None
  end.

(** A page is a dictionary whose [noise_ips], if any, is a list. *)
Definition well_formed_page (page : json) : bool :=
  match page with
  | JObj d => match d !! "noise_ips" with None | Some (JList _) => true | _ => false end
  | _ => false
  end.

(** A page whose [complete] field is there and not true. *)
Definition incomplete_page (page : json) : Prop :=
  well_formed_page page = true
  /\ exists c, page_complete page = Some c /\ truthy c = false.

(** A response with a 2xx status the code takes as one, carrying a page. *)
Definition carries (r : response) (page : json) : Prop :=
  in_range (status_code r) 200 299 = true /\ decoded r = Some page.

(** The request for the next page, with the offset as its only parameter. *)
Definition offset_request (self : GreyNoise) (endpoint : string) (offset : json)
  : request :=
  request_of self endpoint {[ "offset" := offset ]} None.

(** *** The argument of [get_noise] *)

(** [isinstance(date, datetime.date)]: a [datetime.datetime] is one too. *)
Definition is_date (v : pyvalue) : bool :=
  match v with
  | Date _ _ _ | DateTime _ _ _ _ _ _ => true
  | _ => false
  end.

(** The endpoint the specification names for an argument: the bulk endpoint
    with no date, the endpoint of the day with a date. *)
Definition target (date : pyvalue) : option string :=
  match date with
  | Plain JNull => Some "noise/bulk"
  | Date year month day | DateTime year month day _ _ _ =>
      Some ("noise/bulk/" +:+ strftime_DATE_FORMAT year month day)
  | _ => None
  end.

Definition page1 : json :=
  JObj {[ "complete" := JBool false; "offset" := JInt 2;
          "noise_ips" := JList [JStr "1.1.1.1"; JStr "2.2.2.2"] ]}.
Definition page2 : json :=
  JObj {[ "complete" := JBool false; "noise_ips" := JList [JStr "3.3.3.3"] ]}.
Definition page3 : json :=
  JObj {[ "complete" := JBool true; "offset" := JInt 4;
          "noise_ips" := JList [JStr "4.4.4.4"] ]}.
Definition page_without_complete : json :=
  JObj {[ "offset" := JInt 4; "noise_ips" := JList [JStr "4.4.4.4"] ]}.

(** [get_noise] once the endpoint is chosen: the request for the first
    page, and what follows the response to it. *)
Definition after_first_page (self : GreyNoise) (endpoint : string) (response : json)
  : stateful session json :=
  noise_ips <- lift (Py.get response "noise_ips" (JList [])) ;;
  offset <- lift (Py.get response "offset" (JInt (-1))) ;;
  complete <- lift (getitem response "complete") ;;
  noise_ips <-
    (fun s => while_not_complete self endpoint noise_ips offset complete
                                 (script s) (sent s)) ;;
  lift (len noise_ips) ;;
  ret noise_ips.

Definition get_noise_from (self : GreyNoise) (endpoint : string)
  : stateful session json :=
  response <- _request self endpoint None None ;;
  after_first_page self endpoint response.

(** *** Calendar dates

    The dates a [datetime.date] can hold: a year from 1 to 9999, a month and
    a day of that month. *)
Definition is_leap (year : Z) : bool :=
  (year mod 4 =? 0) && (negb (year mod 100 =? 0) || (year mod 400 =? 0)).

Definition days_in_month (year month : Z) : Z :=
  if month =? 2 then (if is_leap year then 29 else 28)
  else if (month =? 4) || (month =? 6) || (month =? 9) || (month =? 11) then 30
  else 31.

Definition valid_date (year month day : Z) : bool :=
  (1 <=? year) && (year <=? 9999) && (1 <=? month) && (month <=? 12)
  && (1 <=? day) && (day <=? days_in_month year month).

Definition valid_calendar_date (v : pyvalue) : bool :=
  match v with
  | Date year month day | DateTime year month day _ _ _ => valid_date year month day
  | _ => false
  end.

(** Python builds no [datetime.date] that is not a date of the calendar. *)
Definition well_formed_value (v : pyvalue) : Prop :=
  is_date v = true -> valid_calendar_date v = true.

(** YYYY-MM-DD, digit by digit. *)
Definition digit (n : Z) : ascii := ascii_of_N (48 + Z.to_N n).

Definition two_digits (n : Z) : string :=
  String (digit (n / 10)) (String (digit (n mod 10)) "").

Definition four_digits (n : Z) : string :=
  String (digit (n / 1000)) (String (digit (n / 100 mod 10)) (two_digits (n mod 100))).

Definition iso_date (year month day : Z) : string :=
  four_digits year +:+ "-" +:+ two_digits month +:+ "-" +:+ two_digits day.

(** The date in the endpoint: YYYY-MM-DD from the year 1000 on; before, the
    year has the digits it has, without leading zeros. *)
Definition date_text (year month day : Z) : string :=
  if 1000 <=? year then iso_date year month day
  else str_int year +:+ "-" +:+ two_digits month +:+ "-" +:+ two_digits day.

(** The URL of an endpoint. *)
Definition url_of (endpoint : string) : string :=
  "https://enterprise.api.greynoise.io/v2/" +:+ endpoint.

(** A result that is not an invalid-argument error. *)
Definition no_value_error {A} (r : result A) : Prop :=
  forall msg, r <> Raise (ValueError msg).

(** *** The operations of the client *)

Inductive operation : Type :=
| GetNoise (date : pyvalue)
| GetNoiseStatus (ip_address : string)
| GetNoiseStatusBulk (ip_addresses : pyvalue)
| GetContext (ip_address : string)
| GetActors.

Definition run (self : GreyNoise) (op : operation) : stateful session json :=
  match op with
  | GetNoise date => get_noise self date
  | GetNoiseStatus ip_address => get_noise_status self ip_address
  | GetNoiseStatusBulk ip_addresses => get_noise_status_bulk self ip_addresses
  | GetContext ip_address => get_context self ip_address
  | GetActors => get_actors self
  end.

(** What the specification asks of every request of the client. *)
Definition conforms (self : GreyNoise) (req : request) : Prop :=
  method req = "GET"
  /\ (exists endpoint,
         url req = "https://enterprise.api.greynoise.io" +:+ "/" +:+ "v2" +:+ "/" +:+ endpoint)
  /\ headers req !! "X-Request-Client" = Some "pyGreyNoise v1"
  /\ headers req !! "key" = Some (api_key self)
  /\ request_timeout req = timeout self.

(** A computation that only adds requests with the property [P] to the log. *)
Definition sends (P : request -> Prop) {A} (c : stateful session A) : Prop :=
  forall s, exists requests,
    sent (snd (c s)) = sent s ++ requests /\ Forall P requests.

(** *** Dotted quads

    A dotted quad in the strict sense: four decimal numbers from 0 to 255
    separated by dots, each without a leading zero. *)
Fixpoint split_dots (s : string) : list string :=
  match s with
  | EmptyString => [""]
  | String c s' =>
      if Ascii.eqb c "." then "" :: split_dots s'
      else match split_dots s' with
           | part :: parts => String c part :: parts
           | [] => [String c ""]
           end
  end.

Fixpoint all_digits (s : string) : bool :=
  match s with
  | EmptyString => true
  | String c s' => Util.isdigit c && all_digits s'
  end.

Fixpoint decimal (acc : Z) (s : string) : Z :=
  match s with
  | EmptyString => acc
  | String c s' => decimal (acc * 10 + (Util.code c - 48)) s'
  end.

Definition is_octet (s : string) : bool :=
  match s with
  | EmptyString => false
  | String c _ =>
      all_digits s && (String.eqb s "0" || negb (Ascii.eqb c "0"))
      && (decimal 0 s <=? 255)
  end.

Definition is_dotted_quad (s : string) : bool :=
  match split_dots s with
  | [a; b; c; d] => is_octet a && is_octet b && is_octet c && is_octet d
  | _ => false
  end.

(** Decimal numbers separated by dots, each without a leading zero, and the
    forms of them that inet(3) describes: [a.b.c.d] with four bytes, [a.b.c]
    with [c] on 16 bits, [a.b] with [b] on 24 bits, [a] on 32 bits. *)
Definition is_number (s : string) : bool :=
  match s with
  | EmptyString => false
  | String c _ => all_digits s && (String.eqb s "0" || negb (Ascii.eqb c "0"))
  end.

Definition is_dotted_decimal (s : string) : bool := forallb is_number (split_dots s).

Definition fits (values : list Z) : bool :=
  match values with
  | [a] => a <=? 4294967295
  | [a; b] => (a <=? 255) && (b <=? 16777215)
  | [a; b; c] => (a <=? 255) && (b <=? 255) && (c <=? 65535)
  | [a; b; c; d] => (a <=? 255) && (b <=? 255) && (c <=? 255) && (d <=? 255)
  | _ => false
  end.

Definition inet_form (s : string) : bool := fits (decimal 0 <$> split_dots s).

(** Texts that are no numbers-and-dots notation at all: the first character
    is not a decimal digit, or there is no blank and some character is
    neither a hexadecimal digit, nor [x], nor a dot (a colon, a letter of a
    host name). *)
Definition numeric_char (c : ascii) : bool :=
  bool_decide (is_Some (Util.digit_of 16 c))
  || Ascii.eqb c "x" || Ascii.eqb c "X" || Ascii.eqb c ".".

Fixpoint all_chars (p : ascii -> bool) (s : string) : bool :=
  match s with
  | EmptyString => true
  | String c s' => p c && all_chars p s'
  end.

Definition starts_with_digit (s : string) : bool :=
  match s with
  | EmptyString => false
  | String c _ => Util.isdigit c
  end.

Definition not_numeric (s : string) : bool :=
  negb (starts_with_digit s)
  || (all_chars (fun c => negb (Util.isspace c)) s && negb (all_chars numeric_char s)).

(** The text after a number: the end, or a dot. *)
Definition after_number (r : string) : Prop := r = "" \/ exists r', r = String "." r'.

(** *** The configuration the specification describes

    Values without [%] are the ones the configuration means as they are
    written.  The texts of a timeout are taken among those on which [int] is
    the same in every Python from 3.6 on: ASCII characters (others can be
    digits elsewhere), at most 4300 of them (Python 3.11 converts no text of
    more digits). *)
Definition percent_free (text : string) : bool := negb (contains "%" text).

Definition without_percent (value : option string) : Prop :=
  forall text, value = Some text -> percent_free text = true.

Definition timeout_text (text : string) : bool :=
  all_chars Util.isascii text && (String.length text <=? 4300)%nat.

Definition timeout_texts (value : option string) : Prop :=
  forall text, value = Some text -> timeout_text text = true.

(** For each field the value of the environment variable when it is set (for
    the timeout: set and an integer), else the value of the file when the
    file has one, else the default. *)
Definition file_value (file : Util.config_file) (name : string) : option string :=
  match file with
  | Util.Content file_sections =>
      match file_sections !! "greynoise" ≫= (fun options => options !! name) with
      | Some value => Some value
      | None => file_sections !! "DEFAULT" ≫= (fun options => options !! name)
      end
  | _ => None
  end.

Definition expected_config (file : Util.config_file) (environ : gmap string string)
  : result Util.config :=
  let of_file name fallback := default fallback (file_value file name) in
  let api_key := default (of_file "api_key" "") (environ !! "GREYNOISE_API_KEY") in
  let api_server :=
    default (of_file "api_server" "https://enterprise.api.greynoise.io")
            (environ !! "GREYNOISE_API_SERVER") in
  let timeout_text :=
    match environ !! "GREYNOISE_TIMEOUT" with
    | Some text => if bool_decide (is_Some (Util.int text)) then text
                   else of_file "timeout" "60"
    | None => of_file "timeout" "60"
    end in
  match Util.int timeout_text with
  | Some timeout =>
      Ok {| Util.api_key := api_key; Util.api_server := api_server;
            Util.timeout := timeout |}
  | None => Raise (IntValueError timeout_text)
  end.

(** The values [load_config] reads are without [%]: those of the file for the
    three fields, and those of the variables of the key and of the server (a
    timeout that is an integer has none). *)
Definition plain_values (file : Util.config_file) (environ : gmap string string)
  : Prop :=
  without_percent (file_value file "api_key")
  /\ without_percent (file_value file "api_server")
  /\ without_percent (file_value file "timeout")
  /\ without_percent (environ !! "GREYNOISE_API_KEY")
  /\ without_percent (environ !! "GREYNOISE_API_SERVER").

(** The text of an option of the section [[greynoise]] before interpolation. *)
Definition raw_value (cp : Util.config_parser) (name : string) : option string :=
  Util.sections cp !! "greynoise"
    ≫= fun options => (options ∪ Util.defaults cp) !! name.

Definition timeout_error : Util.log_entry :=
  (Util.ERROR,
   "GREYNOISE_TIMEOUT environment variable cannot be converted to an integer: %r").

(** What the parser holds once the file is read. *)
Definition parser_of (file : Util.config_file) : Util.config_parser :=
  let config_parser :=
    Util.add_section (Util.ConfigParser (Util.default_items Util.DEFAULT_CONFIG))
                     "greynoise" in
  match file with
  | Util.Content file_sections => Util.readfp config_parser file_sections
  | _ => config_parser
  end.

(** *** Concrete files and environments *)

Definition config_file1 : Util.config_file :=
  Util.Content {[ "greynoise" := {[ "api_key" := "key-of-the-file"; "timeout" := "30" ]} ]}.

Definition environ1 : gmap string string :=
  {[ "GREYNOISE_API_KEY" := "key-of-the-environment";
     "GREYNOISE_API_SERVER" := "https://api.example.org";
     "GREYNOISE_TIMEOUT" := "15" ]}.

Definition environ2 : gmap string string :=
  {[ "GREYNOISE_API_KEY" := "key-of-the-environment";
     "GREYNOISE_TIMEOUT" := "soon" ]}.

(** *** Further concrete inputs *)

(** A response of a server that is down. *)
Definition unavailable : response :=
  {| status_code := 503; content := "Service Unavailable"; decoded := None |}.

Definition error_object : json := JObj {[ "error" := JStr "no results" ]}.

(** A text the configuration file keeps as it is: printable characters, no
    blank and no [%]. *)
Definition plain (text : string) : bool :=
  all_chars (fun c => (33 <=? Util.code c) && (Util.code c <=? 126)
                      && negb (Ascii.eqb c "%")) text.

Definition example_fs : Util.filesystem :=
  {| Util.config_dir := false; Util.config_file_ := Util.Absent |}.

Definition config_file2 : Util.config_file :=
  Util.Content {[ "greynoise" := {[ "api_key" := "key-of-the-file"; "timeout" := "soon" ]} ]}.

(** * Properties *)

(** ** One request *)

Lemma _request_step self endpoint params json_ r pending log :
  _request self endpoint params json_ {| script := r :: pending; sent := log |}
  = (outcome r,
     {| script := pending;
        sent := log ++ [request_of self endpoint (default ∅ params) json_] |}).
Proof.
  unfold _request, bind, session_get, outcome, raise, lift; simpl.
  destruct (in_range (status_code r) 200 299); reflexivity.
Qed.

Lemma _request_no_response self endpoint params json_ log :
  _request self endpoint params json_ {| script := []; sent := log |}
  = (Raise ConnectionError,
     {| script := [];
        sent := log ++ [request_of self endpoint (default ∅ params) json_] |}).
Proof. reflexivity. Qed.

Lemma outcome_ok r v :
  in_range (status_code r) 200 299 = true -> decoded r = Some v ->
  outcome r = Ok v.
Proof. unfold outcome, response_json. intros -> ->. reflexivity. Qed.

(** C1, at the status the code gets wrong: a response with status 299 makes
    [_request], and so an operation such as [get_actors], raise the request
    failure with status 299 and the body, although 299 is a 2xx status. *)
Theorem request_failure_on_299 (self : GreyNoise) (endpoint : string)
    (params : option (gmap string json)) (json_ : option json)
    (body : string) (payload : option json)
    (pending : list response) (log : list request) :
  let r := {| status_code := 299; content := body; decoded := payload |} in
  let s := {| script := r :: pending; sent := log |} in
  fst (_request self endpoint params json_ s) = Raise (RequestFailure 299 body)
  /\ fst (get_actors self s) = Raise (RequestFailure 299 body).
Proof.
  intros r s. unfold get_actors, bind, s. rewrite _request_step. split; reflexivity.
Qed.

(** ** Code messages *)

Lemma validate_ip_cases s strict :
  Util.validate_ip (JStr s) strict
  = if nul_free s then
      if accepted (JStr s) then Ok true
      else if strict then Raise (ValueError (InvalidIPAddress (JStr s))) else Ok false
    else Raise (ValueError EmbeddedNullCharacter).
Proof.
  unfold Util.validate_ip, Util.socket_inet_aton, accepted, nul_free.
  destruct (contains "000" s); [reflexivity|]. cbn [negb].
  destruct (Util.inet_aton s) as [a|].
  - rewrite bool_decide_eq_true_2 by eauto. reflexivity.
  - rewrite bool_decide_eq_false_2 by (intros [? ?]; discriminate). reflexivity.
Qed.

Lemma validate_ip_text s strict :
  nul_free s = true ->
  Util.validate_ip (JStr s) strict
  = if accepted (JStr s) then Ok true
    else if strict then Raise (ValueError (InvalidIPAddress (JStr s))) else Ok false.
Proof. intros Hs. rewrite validate_ip_cases, Hs. reflexivity. Qed.

Lemma validate_ip_accepted s strict :
  nul_free s = true -> is_Some (Util.inet_aton s) ->
  Util.validate_ip (JStr s) strict = Ok true.
Proof.
  intros Hs Ha. rewrite (validate_ip_text _ _ Hs). unfold accepted.
  rewrite bool_decide_eq_true_2 by exact Ha. reflexivity.
Qed.

Lemma code_message_scalar code :
  is_Some (str code) ->
  exists m, code_message code = Ok m /\ attached_message code m.
Proof.
  intros [text Htext]. unfold code_message. rewrite Htext.
  destruct code as [| b | n | c | l | d]; try discriminate.
  - eexists; split; [reflexivity|]. apply message_unknown; [discriminate|exact Htext].
  - eexists; split; [reflexivity|]. apply message_unknown; [discriminate|exact Htext].
  - eexists; split; [reflexivity|]. apply message_unknown; [discriminate|exact Htext].
  - injection Htext as <-.
    destruct (CODE_MESSAGES !! c) as [m|] eqn:Hc.
    + exists m. split; [reflexivity|]. apply message_known, Hc.
    + eexists; split; [reflexivity|]. apply message_unknown; [|reflexivity].
      intros c' [= <-]. exact Hc.
Qed.

Lemma attach_code_message_scalar item :
  scalar_code item ->
  exists item', attach_code_message item = Ok item' /\ annotated item item'.
Proof.
  intros (d & code & -> & Hcode & Hstr).
  destruct (code_message_scalar code Hstr) as (m & Hm & Hspec).
  exists (JObj (<["code_message" := JStr m]> d)). split.
  - unfold attach_code_message, getitem. rewrite Hcode, Hm. reflexivity.
  - exists d, code, m. auto.
Qed.

Lemma mapM_attach_scalar items :
  Forall scalar_code items ->
  exists items', mapM attach_code_message items = Ok items'
                 /\ Forall2 annotated items items'.
Proof.
  induction 1 as [| item items Hitem _ (items' & IH & Hall)].
  - exists []. split; [reflexivity | constructor].
  - destruct (attach_code_message_scalar item Hitem) as (item' & Hattach & Hann).
    exists (item' :: items'). simpl. rewrite Hattach, IH.
    split; [reflexivity | constructor; assumption].
Qed.

Lemma filterM_validate_ip ip_addresses :
  Forall text_without_nul ip_addresses ->
  filterM (fun ip_address => Util.validate_ip ip_address false) ip_addresses
  = Ok (List.filter accepted ip_addresses).
Proof.
  induction 1 as [| v l (s & -> & Hs) _ IH]; [reflexivity|].
  cbn [filterM List.filter]. rewrite (validate_ip_text _ _ Hs), IH.
  destruct (accepted (JStr s)); reflexivity.
Qed.

(** C4, amended: a response whose [code] is a text, a number, a boolean or
    [None] never makes the look-ups fail; [get_noise_status] returns the
    response, and [get_noise_status_bulk] each element of the response, with
    [code_message] set to the message of the table when the code is a key of
    the table and to "Code message unknown: <code>" when it is not.  (The
    addresses are texts without a NUL character, the one of
    [get_noise_status] an address that is accepted.) *)
Theorem code_message_attached (self : GreyNoise) (ip_address : string)
    (ip_addresses : list json) (r rb : response) (item : json) (items : list json)
    (pending : list response) (log : list request) :
  nul_free ip_address = true ->
  is_Some (Util.inet_aton ip_address) ->
  Forall text_without_nul ip_addresses ->
  in_range (status_code r) 200 299 = true ->
  decoded r = Some item -> scalar_code item ->
  in_range (status_code rb) 200 299 = true ->
  decoded rb = Some (JList items) -> Forall scalar_code items ->
  (exists item',
      fst (get_noise_status self ip_address {| script := r :: pending; sent := log |})
      = Ok item' /\ annotated item item')
  /\ (exists items',
      fst (get_noise_status_bulk self (Plain (JList ip_addresses))
             {| script := rb :: pending; sent := log |})
      = Ok (JList items') /\ Forall2 annotated items items').
Proof.
  intros Hnul Hip Htexts Hr Hitem Hscalar Hrb Hitems Hscalars. split.
  - destruct (attach_code_message_scalar item Hscalar) as (item' & Hattach & Hann).
    exists item'. split; [|exact Hann].
    unfold get_noise_status, bind, lift.
    rewrite (validate_ip_accepted _ _ Hnul Hip), _request_step,
      (outcome_ok _ _ Hr Hitem).
    rewrite Hattach. reflexivity.
  - destruct (mapM_attach_scalar items Hscalars) as (items' & Hmap & Hann).
    exists items'. split; [|exact Hann].
    unfold get_noise_status_bulk, bind, lift, ret.
    rewrite (filterM_validate_ip _ Htexts), _request_step, (outcome_ok _ _ Hrb Hitems).
    simpl. rewrite Hmap. reflexivity.
Qed.

Example get_noise_status_unknown_code :
  fst (get_noise_status client "8.8.8.8" (session_of [answer unknown_code]))
  = Ok (JObj {[ "ip" := JStr "8.8.8.8"; "code" := JStr "0x99";
                "code_message" := JStr "Code message unknown: 0x99" ]}).
Proof. vm_compute. reflexivity. Qed.

Example get_noise_status_known_code :
  fst (get_noise_status client "8.8.8.8" (session_of [answer known_code]))
  = Ok (JObj {[ "ip" := JStr "8.8.8.8"; "code" := JStr "0x05";
                "code_message" := JStr "IP is commonly spoofed in Internet-scan activity" ]}).
Proof. vm_compute. reflexivity. Qed.

Ltac some := eexists; vm_compute; reflexivity.
Ltac scalar := eexists _, _; split; [reflexivity | split; [vm_compute; reflexivity | some]].

Lemma code_message_attached_witness :
  (exists item',
      fst (get_noise_status client "8.8.8.8"
             {| script := answer unknown_code :: []; sent := [] |})
      = Ok item' /\ annotated unknown_code item')
  /\ (exists items',
      fst (get_noise_status_bulk client (Plain (JList [JStr "8.8.8.8"; JStr "not-an-ip"]))
             {| script := answer (JList [known_code; unknown_code]) :: []; sent := [] |})
      = Ok (JList items') /\ Forall2 annotated [known_code; unknown_code] items').
Proof.
  apply (code_message_attached client "8.8.8.8" [JStr "8.8.8.8"; JStr "not-an-ip"]
           (answer unknown_code) (answer (JList [known_code; unknown_code]))
           unknown_code [known_code; unknown_code] [] []).
  - reflexivity.
  - some.
  - repeat constructor; eexists; split; reflexivity.
  - reflexivity.
  - reflexivity.
  - scalar.
  - reflexivity.
  - reflexivity.
  - repeat constructor; scalar.
Defined.

(** C4 as stated fails: a response whose [code] is a list has a [code] that
    is not a key of the table, and the look-ups raise [TypeError]. *)
Lemma code_message_unhashable_code :
  getitem list_code "code" = Ok (JList [])
  /\ (forall c, JList [] = JStr c -> CODE_MESSAGES !! c = None)
  /\ fst (get_noise_status client "8.8.8.8" (session_of [answer list_code]))
     = Raise TypeError
  /\ fst (get_noise_status_bulk client (Plain (JList [JStr "8.8.8.8"]))
            (session_of [answer (JList [list_code])]))
     = Raise TypeError.
Proof.
  split; [vm_compute; reflexivity|]. split; [discriminate|].
  split; vm_compute; reflexivity.
Qed.

(** C9: a response without a [code] makes [get_noise_status] raise
    [KeyError] for ["code"], and so does the first element without a [code]
    in the response of [get_noise_status_bulk]; no message is attached.  (The
    addresses are texts without a NUL character, the one of
    [get_noise_status] an address that is accepted.) *)
Theorem missing_code_key_error (self : GreyNoise) (ip_address : string)
    (ip_addresses : list json) (r rb : response) (d : gmap string json)
    (before after : list json) (pending : list response) (log : list request) :
  nul_free ip_address = true ->
  is_Some (Util.inet_aton ip_address) ->
  Forall text_without_nul ip_addresses ->
  d !! "code" = None ->
  in_range (status_code r) 200 299 = true ->
  decoded r = Some (JObj d) ->
  in_range (status_code rb) 200 299 = true ->
  decoded rb = Some (JList (before ++ JObj d :: after)) ->
  Forall scalar_code before ->
  fst (get_noise_status self ip_address {| script := r :: pending; sent := log |})
  = Raise (KeyError "code")
  /\ fst (get_noise_status_bulk self (Plain (JList ip_addresses))
            {| script := rb :: pending; sent := log |})
     = Raise (KeyError "code").
Proof.
  intros Hnul Hip Htexts Hd Hr Hdec Hrb Hdecb Hbefore. split.
  - unfold get_noise_status, bind, lift.
    rewrite (validate_ip_accepted _ _ Hnul Hip), _request_step,
      (outcome_ok _ _ Hr Hdec).
    unfold attach_code_message, getitem. rewrite Hd. reflexivity.
  - unfold get_noise_status_bulk, bind, lift, ret.
    rewrite (filterM_validate_ip _ Htexts), _request_step, (outcome_ok _ _ Hrb Hdecb).
    cbn [iterate].
    assert (mapM attach_code_message (before ++ JObj d :: after)
            = Raise (KeyError "code")) as Hmap.
    { clear Hdecb. induction Hbefore as [| item before Hitem _ IH].
      - cbn. unfold attach_code_message, getitem. rewrite Hd. reflexivity.
      - destruct (attach_code_message_scalar item Hitem) as (item' & Hattach & _).
        cbn [mapM app]. rewrite Hattach, IH. reflexivity. }
    rewrite Hmap. reflexivity.
Qed.

Lemma missing_code_key_error_witness :
  fst (get_noise_status client "8.8.8.8"
         {| script := answer no_code :: []; sent := [] |})
  = Raise (KeyError "code")
  /\ fst (get_noise_status_bulk client (Plain (JList [JStr "8.8.8.8"; JStr "1.1.1.1"]))
            {| script := answer (JList ([known_code] ++ no_code :: [unknown_code])) :: [];
               sent := [] |})
     = Raise (KeyError "code").
Proof.
  apply (missing_code_key_error client "8.8.8.8" [JStr "8.8.8.8"; JStr "1.1.1.1"]
           (answer no_code) (answer (JList ([known_code] ++ no_code :: [unknown_code])))
           no_code_fields [known_code] [unknown_code] [] []).
  - reflexivity.
  - some.
  - repeat constructor; eexists; split; reflexivity.
  - vm_compute; reflexivity.
  - reflexivity.
  - reflexivity.
  - reflexivity.
  - reflexivity.
  - repeat constructor; scalar.
Defined.

(** ** The bulk look-up *)

Lemma _request_run self endpoint params json_ s :
  _request self endpoint params json_ s
  = (match script s with
     | [] => Raise ConnectionError
     | r :: _ => outcome r
     end,
     {| script := tail (script s);
        sent := sent s ++ [request_of self endpoint (default ∅ params) json_] |}).
Proof.
  destruct s as [[| r pending] log]; [apply _request_no_response | apply _request_step].
Qed.

Example get_noise_status_bulk_one_invalid :
  get_noise_status_bulk client (Plain (JList [JStr "8.8.8.8"; JStr "not-an-ip"]))
    (session_of [answer (JList [known_code])])
  = (Ok (JList [JObj {[ "ip" := JStr "8.8.8.8"; "code" := JStr "0x05";
                        "code_message" := JStr "IP is commonly spoofed in Internet-scan activity" ]}]),
     {| script := [];
        sent := [request_of client EP_NOISE_MULTI ∅
                   (Some (JObj {[ "ips" := JList [JStr "8.8.8.8"] ]}))] |}).
Proof. vm_compute. reflexivity. Qed.

Lemma mapM_attach_no_value_error items msg :
  mapM attach_code_message items = Raise (ValueError msg) -> False.
Proof.
  induction items as [| item items IH]; [discriminate|].
  cbn [mapM].
  destruct (attach_code_message item) as [item' | e] eqn:Hattach.
  - destruct (mapM attach_code_message items); [discriminate|].
    intros [= ->]. apply IH. reflexivity.
  - intros [= ->]. unfold attach_code_message in Hattach.
    destruct item; cbn in Hattach; try discriminate.
    destruct (d !! "code") as [code|]; [|discriminate].
    unfold code_message in Hattach.
    destruct (str code); cbn in Hattach; discriminate.
Qed.




(** ** Pagination *)

Lemma bind_request {B} self endpoint params json_ (k : json -> stateful session B)
    r pending log :
  bind (_request self endpoint params json_) k {| script := r :: pending; sent := log |}
  = match outcome r with
    | Ok v => k v {| script := pending;
                     sent := log ++ [request_of self endpoint (default ∅ params) json_] |}
    | Raise e => (Raise e,
                  {| script := pending;
                     sent := log ++ [request_of self endpoint (default ∅ params) json_] |})
    end.
Proof. unfold bind at 1. rewrite _request_step. reflexivity. Qed.

(** The recursion on the responses left is the [while] loop of the source:
    the test, then a request and the four statements of the body, then the
    loop again on the session reached. *)
Lemma while_not_complete_unfold self endpoint noise_ips offset complete s :
  while_not_complete self endpoint noise_ips offset complete (script s) (sent s)
  = if truthy complete then (Ok noise_ips, s)
    else (response <- _request self endpoint (Some {[ "offset" := offset ]}) None ;;
          more <- lift (Py.get response "noise_ips" (JList [])) ;;
          noise_ips <- lift (extend noise_ips more) ;;
          offset <- lift (Py.get response "offset" (JInt (-1))) ;;
          complete <- lift (getitem response "complete") ;;
          fun s' => while_not_complete self endpoint noise_ips offset complete
                                       (script s') (sent s')) s.
Proof.
  destruct s as [[| r pending] log].
  - cbn [while_not_complete script sent]. destruct (truthy complete); reflexivity.
  - cbn [while_not_complete script sent]. destruct (truthy complete); [reflexivity|].
    rewrite !bind_request.
    destruct (outcome r) as [response | e]; [|reflexivity].
    unfold bind, lift, ret.
    destruct (Py.get response "noise_ips" (JList [])) as [more | e]; [|reflexivity].
    destruct (extend noise_ips more) as [noise_ips' | e]; [|reflexivity].
    destruct (Py.get response "offset" (JInt (-1))) as [offset' | e]; [|reflexivity].
    destruct (getitem response "complete") as [complete' | e]; reflexivity.
Qed.

Lemma while_not_complete_done self endpoint noise_ips offset complete pending log :
  truthy complete = true ->
  while_not_complete self endpoint noise_ips offset complete pending log
  = (Ok noise_ips, {| script := pending; sent := log |}).
Proof. intros H. destruct pending; cbn [while_not_complete]; rewrite H; reflexivity. Qed.

(** The body of the loop on a well-formed page. *)
Lemma page_body page acc :
  well_formed_page page = true ->
  exists d, page = JObj d
    /\ Py.get page "noise_ips" (JList []) = Ok (JList (page_ips page))
    /\ extend (JList acc) (JList (page_ips page)) = Ok (JList (acc ++ page_ips page))
    /\ Py.get page "offset" (JInt (-1)) = Ok (page_offset page)
    /\ getitem page "complete"
       = match page_complete page with
         | Some c => Ok c
         | None => Raise (KeyError "complete")
         end.
Proof.
  destruct page as [| | | | | d]; try discriminate. intros Hwf. exists d.
  cbn in Hwf |- *. repeat split.
  destruct (d !! "noise_ips") as [[| | | | l |] |]; try discriminate; reflexivity.
Qed.

Lemma while_not_complete_page self endpoint acc offset complete r page rest log :
  truthy complete = false ->
  carries r page ->
  well_formed_page page = true ->
  while_not_complete self endpoint (JList acc) offset complete (r :: rest) log
  = match page_complete page with
    | Some c =>
        while_not_complete self endpoint (JList (acc ++ page_ips page))
          (page_offset page) c rest (log ++ [offset_request self endpoint offset])
    | None =>
        (Raise (KeyError "complete"),
         {| script := rest; sent := log ++ [offset_request self endpoint offset] |})
    end.
Proof.
  intros Hc [Hstatus Hdecoded] Hwf.
  pose proof (while_not_complete_unfold self endpoint (JList acc) offset complete
                {| script := r :: rest; sent := log |}) as Hloop.
  cbn [script sent] in Hloop. rewrite Hloop, Hc, bind_request.
  rewrite (outcome_ok _ _ Hstatus Hdecoded).
  destruct (page_body page acc Hwf) as (d & _ & Hips & Hext & Hoff & Hcomplete).
  unfold bind, lift. rewrite Hips, Hext, Hoff, Hcomplete.
  destruct (page_complete page); reflexivity.
Qed.

(** The loop over a run of pages: those before the last are incomplete, the
    last one is complete or has no [complete] field. *)
Lemma while_not_complete_pages self endpoint init :
  forall responses last rest acc offset complete log,
    truthy complete = false ->
    Forall2 carries responses (init ++ [last]) ->
    Forall incomplete_page init ->
    well_formed_page last = true ->
    (forall c, page_complete last = Some c -> truthy c = true) ->
    while_not_complete self endpoint (JList acc) offset complete (responses ++ rest) log
    = (match page_complete last with
       | Some _ => Ok (JList (acc ++ concat (page_ips <$> (init ++ [last]))))
       | None => Raise (KeyError "complete")
       end,
       {| script := rest;
          sent := log ++ (offset_request self endpoint <$> (offset :: (page_offset <$> init))) |}).
Proof.
  induction init as [| page init IH];
    intros responses last rest acc offset complete log Hc Hresp Hinit Hwf Hlast.
  - apply Forall2_cons_inv_r in Hresp as (r & responses' & Hr & Hnil & ->).
    apply Forall2_nil_inv_r in Hnil as ->.
    cbn [app]. rewrite (while_not_complete_page _ _ _ _ _ _ _ _ _ Hc Hr Hwf).
    destruct (page_complete last) as [c|] eqn:Hcomplete; [|reflexivity].
    rewrite while_not_complete_done by (apply Hlast; reflexivity).
    cbn. rewrite app_nil_r. reflexivity.
  - cbn [app] in Hresp.
    apply Forall2_cons_inv_r in Hresp as (r & responses' & Hr & Hresp & ->).
    apply Forall_cons in Hinit as [(Hwfp & c & Hcomplete & Hfalse) Hinit].
    cbn [app]. rewrite (while_not_complete_page _ _ _ _ _ _ _ _ _ Hc Hr Hwfp), Hcomplete.
    rewrite (IH responses' last rest _ _ _ _ Hfalse Hresp Hinit Hwf Hlast).
    f_equal.
    + destruct (page_complete last); [|reflexivity].
      cbn. rewrite app_assoc. reflexivity.
    + f_equal. cbn. rewrite <- app_assoc. reflexivity.
Qed.

Lemma get_noise_unfold self date :
  get_noise self date
  = match target date with
    | Some endpoint => get_noise_from self endpoint
    | None => raise (ValueError DateMustBeDate)
    end.
Proof. destruct date as [[| | | | |] | | |]; reflexivity. Qed.

Lemma get_noise_first self date endpoint r pending log :
  target date = Some endpoint ->
  get_noise self date {| script := r :: pending; sent := log |}
  = match outcome r with
    | Ok response =>
        after_first_page self endpoint response
          {| script := pending; sent := log ++ [request_of self endpoint ∅ None] |}
    | Raise e =>
        (Raise e, {| script := pending;
                     sent := log ++ [request_of self endpoint ∅ None] |})
    end.
Proof.
  intros Htarget. rewrite get_noise_unfold, Htarget. apply bind_request.
Qed.

(** [get_noise] over a run of pages. *)
Lemma get_noise_pages self date endpoint init responses last rest log :
  target date = Some endpoint ->
  Forall2 carries responses (init ++ [last]) ->
  Forall incomplete_page init ->
  well_formed_page last = true ->
  (forall c, page_complete last = Some c -> truthy c = true) ->
  get_noise self date {| script := responses ++ rest; sent := log |}
  = (match page_complete last with
     | Some _ => Ok (JList (concat (page_ips <$> (init ++ [last]))))
     | None => Raise (KeyError "complete")
     end,
     {| script := rest;
        sent := log ++ request_of self endpoint ∅ None
                       :: (offset_request self endpoint <$> (page_offset <$> init)) |}).
Proof.
  intros Htarget Hresp Hinit Hwf Hlast.
  destruct init as [| page init].
  - apply Forall2_cons_inv_r in Hresp as (r & responses' & [Hstatus Hdecoded] & Hnil & ->).
    apply Forall2_nil_inv_r in Hnil as ->.
    cbn [app]. rewrite (get_noise_first _ _ _ _ _ _ Htarget).
    rewrite (outcome_ok _ _ Hstatus Hdecoded).
    destruct (page_body last [] Hwf) as (d & _ & Hips & _ & Hoff & Hcomplete).
    unfold after_first_page, bind, lift. rewrite Hips, Hoff, Hcomplete.
    destruct (page_complete last) as [c|]; [|reflexivity].
    cbn [script sent]. rewrite while_not_complete_done by (apply Hlast; reflexivity).
    cbn. rewrite app_nil_r. reflexivity.
  - cbn [app] in Hresp.
    apply Forall2_cons_inv_r in Hresp as (r & responses' & [Hstatus Hdecoded] & Hresp & ->).
    apply Forall_cons in Hinit as [(Hwfp & c & Hcomplete & Hfalse) Hinit].
    cbn [app]. rewrite (get_noise_first _ _ _ _ _ _ Htarget).
    rewrite (outcome_ok _ _ Hstatus Hdecoded).
    destruct (page_body page [] Hwfp) as (d & _ & Hips & _ & Hoff & Hget).
    unfold after_first_page, bind, lift. rewrite Hips, Hoff, Hget, Hcomplete.
    cbn [script sent].
    rewrite (while_not_complete_pages _ _ _ _ _ _ _ _ _ _ Hfalse Hresp Hinit Hwf Hlast).
    destruct (page_complete last); cbn; rewrite <- app_assoc; reflexivity.
Qed.

(** The loop returns only after a response whose [complete] is true, or at
    once when [complete] is true at its start. *)
Lemma while_not_complete_returns self endpoint pending :
  forall noise_ips offset complete log v s',
    while_not_complete self endpoint noise_ips offset complete pending log = (Ok v, s') ->
    (truthy complete = true /\ pending = script s')
    \/ exists consumed r page c,
        pending = consumed ++ r :: script s' /\ outcome r = Ok page
        /\ getitem page "complete" = Ok c /\ truthy c = true.
Proof.
  induction pending as [| r pending IH]; intros noise_ips offset complete log v s' Hrun.
  - cbn [while_not_complete] in Hrun.
    destruct (truthy complete); [|discriminate].
    injection Hrun as _ <-. left. split; reflexivity.
  - pose proof (while_not_complete_unfold self endpoint noise_ips offset complete
                  {| script := r :: pending; sent := log |}) as Hloop.
    cbn [script sent] in Hloop. rewrite Hloop in Hrun. clear Hloop.
    destruct (truthy complete) eqn:Hc.
    { injection Hrun as _ <-. left. split; reflexivity. }
    right. rewrite bind_request in Hrun.
    destruct (outcome r) as [response | e] eqn:Hr; [|discriminate].
    unfold bind, lift in Hrun.
    destruct (Py.get response "noise_ips" (JList [])) as [more | e]; [|discriminate].
    destruct (extend noise_ips more) as [noise_ips' | e]; [|discriminate].
    destruct (Py.get response "offset" (JInt (-1))) as [offset' | e]; [|discriminate].
    destruct (getitem response "complete") as [complete' | e] eqn:Hget; [|discriminate].
    cbn [script sent] in Hrun.
    destruct (IH _ _ _ _ _ _ Hrun) as [[Htrue ->] | (consumed & r' & page & c & -> & Hrest)].
    + exists [], r, response, complete'. auto.
    + exists (r :: consumed), r', page, c. split; [reflexivity | exact Hrest].
Qed.

Lemma get_noise_returns self date s v s' :
  get_noise self date s = (Ok v, s') ->
  exists consumed r page c,
    script s = consumed ++ r :: script s' /\ outcome r = Ok page
    /\ getitem page "complete" = Ok c /\ truthy c = true.
Proof.
  intros Hrun.
  destruct (target date) as [endpoint|] eqn:Htarget.
  2:{ unfold get_noise, bind, raise in Hrun.
      destruct date as [[| | | | |] | | |]; discriminate. }
  destruct s as [[| r pending] log].
  { unfold get_noise, bind in Hrun.
    destruct date as [[| | | | |] | | |]; discriminate. }
  rewrite (get_noise_first _ _ _ _ _ _ Htarget) in Hrun.
  destruct (outcome r) as [response | e] eqn:Hr; [|discriminate].
  unfold after_first_page, bind, lift in Hrun.
  destruct (Py.get response "noise_ips" (JList [])) as [noise_ips | e]; [|discriminate].
  destruct (Py.get response "offset" (JInt (-1))) as [offset | e]; [|discriminate].
  destruct (getitem response "complete") as [complete | e] eqn:Hget; [|discriminate].
  cbn [script sent] in Hrun.
  destruct (while_not_complete _ _ _ _ _ _ _) as [[noise_ips' | e] s1] eqn:Hloop;
    [|discriminate].
  destruct (len noise_ips'); [|discriminate].
  injection Hrun as _ <-.
  destruct (while_not_complete_returns _ _ _ _ _ _ _ _ _ Hloop)
    as [[Htrue ->] | (consumed & r' & page & c & -> & Hrest)]; cbn [script].
  - exists [], r, response, complete. auto.
  - exists (r :: consumed), r', page, c. split; [reflexivity | exact Hrest].
Qed.

Lemma target_of_date date :
  date = Plain JNull \/ is_date date = true -> exists endpoint, target date = Some endpoint.
Proof.
  intros [-> | Hdate]; [eexists; reflexivity|].
  destruct date; try discriminate; eexists; reflexivity.
Qed.

(** C3: when the server answers a run of pages whose [complete] is [False]
    on all but the last and [True] on the last, [get_noise] sends one request
    per page and returns the [noise_ips] of the pages, concatenated in the
    order of the pages. *)
Theorem get_noise_concatenates_pages (self : GreyNoise) (date : pyvalue)
    (responses : list response) (init : list json) (last : json)
    (rest : list response) (log : list request) :
  date = Plain JNull \/ is_date date = true ->
  Forall2 carries responses (init ++ [last]) ->
  Forall (fun page => well_formed_page page = true
                      /\ page_complete page = Some (JBool false)) init ->
  well_formed_page last = true ->
  page_complete last = Some (JBool true) ->
  exists requests,
    get_noise self date {| script := responses ++ rest; sent := log |}
    = (Ok (JList (concat (page_ips <$> (init ++ [last])))),
       {| script := rest; sent := log ++ requests |})
    /\ length requests = length (init ++ [last]).
Proof.
  intros Hdate Hresp Hinit Hwf Hlast.
  destruct (target_of_date date Hdate) as [endpoint Htarget].
  eexists. split.
  - rewrite (get_noise_pages self date endpoint init responses last rest log Htarget Hresp).
    + rewrite Hlast. reflexivity.
    + eapply Forall_impl; [exact Hinit|].
      intros page [Hwfp Hc]. split; [exact Hwfp|]. exists (JBool false). auto.
    + exact Hwf.
    + rewrite Hlast. intros c [= <-]. reflexivity.
  - cbn. rewrite !length_fmap, length_app. cbn. lia.
Qed.

Lemma get_noise_concatenates_pages_witness :
  exists requests,
    get_noise client (Plain JNull)
      {| script := [answer page1; answer page2; answer page3] ++ [];
         sent := [] |}
    = (Ok (JList (concat (page_ips <$> ([page1; page2] ++ [page3])))),
       {| script := []; sent := [] ++ requests |})
    /\ length requests = length ([page1; page2] ++ [page3]).
Proof.
  apply (get_noise_concatenates_pages client (Plain JNull)
           [answer page1; answer page2; answer page3] [page1; page2] page3 [] []).
  - left. reflexivity.
  - repeat constructor.
  - repeat constructor.
  - reflexivity.
  - reflexivity.
Defined.

Example get_noise_three_pages :
  fst (get_noise client (Plain JNull)
         (session_of [answer page1; answer page2; answer page3]))
  = Ok (JList [JStr "1.1.1.1"; JStr "2.2.2.2"; JStr "3.3.3.3"; JStr "4.4.4.4"]).
Proof. vm_compute. reflexivity. Qed.

(** The requests of the loop, whatever the server answers: the offset it
    starts with, then the offset of each response it went on from. *)
Lemma get_offset response offset :
  Py.get response "offset" (JInt (-1)) = Ok offset -> offset = page_offset response.
Proof. destruct response; try discriminate. intros [= <-]. reflexivity. Qed.

Lemma while_not_complete_trace self endpoint pending :
  forall noise_ips offset complete log,
  exists pages,
    Forall2 (fun r page => outcome r = Ok page) (take (length pages) pending) pages
    /\ sent (snd (while_not_complete self endpoint noise_ips offset complete pending log))
       = log ++ (if truthy complete then []
                 else offset_request self endpoint <$> (offset :: (page_offset <$> pages))).
Proof.
  induction pending as [| r pending IH]; intros noise_ips offset complete log.
  - exists []. split; [constructor|].
    cbn [while_not_complete]. destruct (truthy complete);
      cbn; rewrite ?app_nil_r; reflexivity.
  - pose proof (while_not_complete_unfold self endpoint noise_ips offset complete
                  {| script := r :: pending; sent := log |}) as Hloop.
    cbn [script sent] in Hloop. rewrite Hloop. clear Hloop.
    destruct (truthy complete);
      [exists []; split; [constructor | cbn; rewrite app_nil_r; reflexivity]|].
    rewrite bind_request.
    destruct (outcome r) as [response | e] eqn:Hr;
      [|exists []; split; [constructor | reflexivity]].
    unfold bind, lift.
    destruct (Py.get response "noise_ips" (JList [])) as [more | e];
      [|exists []; split; [constructor | reflexivity]].
    destruct (extend noise_ips more) as [noise_ips' | e];
      [|exists []; split; [constructor | reflexivity]].
    destruct (Py.get response "offset" (JInt (-1))) as [offset' | e] eqn:Hoffset;
      [|exists []; split; [constructor | reflexivity]].
    destruct (getitem response "complete") as [complete' | e];
      [|exists []; split; [constructor | reflexivity]].
    cbn [script sent]. apply get_offset in Hoffset as ->.
    destruct (IH noise_ips' (page_offset response) complete'
                (log ++ [request_of self endpoint
                           (default ∅ (Some {[ "offset" := offset ]})) None]))
      as (pages & Hpages & Hsent).
    rewrite Hsent, <- app_assoc. destruct (truthy complete').
    + exists []. split; [constructor | reflexivity].
    + exists (response :: pages). split; [|reflexivity].
      cbn [length take]. constructor; assumption.
Qed.

Lemma get_noise_trace self date endpoint s :
  target date = Some endpoint ->
  exists pages,
    Forall2 (fun r page => outcome r = Ok page) (take (length pages) (script s)) pages
    /\ sent (snd (get_noise self date s))
       = sent s ++ request_of self endpoint ∅ None
                   :: (offset_request self endpoint <$> (page_offset <$> pages)).
Proof.
  intros Htarget. destruct s as [[| r pending] log].
  - exists []. split; [constructor|].
    rewrite get_noise_unfold, Htarget. reflexivity.
  - rewrite (get_noise_first _ _ _ _ _ _ Htarget). cbn [script sent].
    destruct (outcome r) as [response | e] eqn:Hr;
      [|exists []; split; [constructor | reflexivity]].
    unfold after_first_page, bind, lift.
    destruct (Py.get response "noise_ips" (JList [])) as [noise_ips | e];
      [|exists []; split; [constructor | reflexivity]].
    destruct (Py.get response "offset" (JInt (-1))) as [offset | e] eqn:Hoffset;
      [|exists []; split; [constructor | reflexivity]].
    destruct (getitem response "complete") as [complete | e];
      [|exists []; split; [constructor | reflexivity]].
    cbn [script sent]. apply get_offset in Hoffset as ->.
    destruct (while_not_complete_trace self endpoint pending noise_ips
                (page_offset response) complete
                (log ++ [request_of self endpoint ∅ None]))
      as (pages & Hpages & Hsent).
    destruct (while_not_complete _ _ _ _ _ _ _) as [[noise_ips' | e] s1];
      cbn [snd] in Hsent.
    + destruct (truthy complete).
      * exists []. split; [constructor|].
        destruct (len noise_ips'); cbn; rewrite Hsent, app_nil_r; reflexivity.
      * exists (response :: pages). split; [constructor; assumption|].
        destruct (len noise_ips'); cbn; rewrite Hsent, <- app_assoc; reflexivity.
    + destruct (truthy complete).
      * exists []. split; [constructor|]. cbn. rewrite Hsent, app_nil_r. reflexivity.
      * exists (response :: pages). split; [constructor; assumption|].
        cbn. rewrite Hsent, <- app_assoc. reflexivity.
Qed.



Example get_noise_offsets_sent :
  params <$> sent (snd (get_noise client (Plain JNull)
                          (session_of [answer page1; answer page2; answer page3])))
  = [∅; {[ "offset" := JInt 2 ]}; {[ "offset" := JInt (-1) ]}].
Proof. vm_compute. reflexivity. Qed.

(** ** The requests of the client *)

Lemma request_of_conforms self endpoint params json_ :
  conforms self (request_of self endpoint params json_).
Proof.
  unfold conforms, request_of; cbn [method url headers request_timeout].
  split; [reflexivity|]. split; [exists endpoint; reflexivity|].
  split; [reflexivity|]. split; [|reflexivity].
  rewrite lookup_insert_ne by discriminate. apply lookup_insert_eq.
Qed.

Section Sends.
Variable self : GreyNoise.
Variable P : request -> Prop.

Lemma sends_ret {A} (a : A) : sends P (ret a).
Proof. intros s. exists []. rewrite app_nil_r. split; [reflexivity | constructor]. Qed.

Lemma sends_raise {A} e : sends P (raise e : stateful session A).
Proof. intros s. exists []. rewrite app_nil_r. split; [reflexivity | constructor]. Qed.

Lemma sends_lift {A} (r : result A) : sends P (lift r).
Proof. intros s. exists []. rewrite app_nil_r. split; [reflexivity | constructor]. Qed.

Lemma sends_bind {A B} (c : stateful session A) (k : A -> stateful session B) :
  sends P c -> (forall a, sends P (k a)) -> sends P (bind c k).
Proof.
  intros Hc Hk s. unfold bind.
  destruct (Hc s) as (requests & Hsent & Hall).
  destruct (c s) as [[a | e] s1]; cbn [snd] in Hsent.
  - destruct (Hk a s1) as (requests' & Hsent' & Hall').
    exists (requests ++ requests'). rewrite Hsent', Hsent, app_assoc.
    split; [reflexivity | apply Forall_app; auto].
  - exists requests. auto.
Qed.

Lemma sends_request endpoint params json_ :
  P (request_of self endpoint (default ∅ params) json_) ->
  sends P (_request self endpoint params json_).
Proof.
  intros HP s. rewrite _request_run. eexists. split; [reflexivity|].
  repeat constructor; exact HP.
Qed.

Lemma sends_while_not_complete endpoint pending :
  (forall params, P (request_of self endpoint params None)) ->
  forall noise_ips offset complete log,
  exists requests,
    sent (snd (while_not_complete self endpoint noise_ips offset complete pending log))
    = log ++ requests /\ Forall P requests.
Proof.
  intros HP.
  induction pending as [| r pending IH]; intros noise_ips offset complete log.
  - cbn [while_not_complete]. destruct (truthy complete).
    + exists []. rewrite app_nil_r. split; [reflexivity | constructor].
    + eexists. split; [reflexivity|]. repeat constructor; apply HP.
  - pose proof (while_not_complete_unfold self endpoint noise_ips offset complete
                  {| script := r :: pending; sent := log |}) as Hloop.
    cbn [script sent] in Hloop. rewrite Hloop. clear Hloop.
    destruct (truthy complete).
    { exists []. rewrite app_nil_r. split; [reflexivity | constructor]. }
    rewrite bind_request.
    assert (Forall P
              [request_of self endpoint (default ∅ (Some {[ "offset" := offset ]})) None])
      as Hone by (repeat constructor; apply HP).
    destruct (outcome r) as [response | e]; [|eexists; split; [reflexivity | exact Hone]].
    unfold bind, lift, ret.
    destruct (Py.get response "noise_ips" (JList [])) as [more | e];
      [|eexists; split; [reflexivity | exact Hone]].
    destruct (extend noise_ips more) as [noise_ips' | e];
      [|eexists; split; [reflexivity | exact Hone]].
    destruct (Py.get response "offset" (JInt (-1))) as [offset' | e];
      [|eexists; split; [reflexivity | exact Hone]].
    destruct (getitem response "complete") as [complete' | e];
      [|eexists; split; [reflexivity | exact Hone]].
    cbn [script sent].
    destruct (IH noise_ips' offset' complete'
                (log ++ [request_of self endpoint (default ∅ (Some {[ "offset" := offset ]})) None]))
      as (requests & Hsent & Hall).
    eexists. rewrite Hsent, <- app_assoc. split; [reflexivity|].
    apply Forall_app; auto.
Qed.

Lemma sends_after_first_page endpoint response :
  (forall params, P (request_of self endpoint params None)) ->
  sends P (after_first_page self endpoint response).
Proof.
  intros HP. unfold after_first_page.
  do 3 (apply sends_bind; [apply sends_lift|]; intros ?).
  apply sends_bind.
  { intros s. apply sends_while_not_complete, HP. }
  intros noise_ips. apply sends_bind; [apply sends_lift|]. intros _. apply sends_ret.
Qed.

Lemma sends_get_noise_from endpoint :
  (forall params, P (request_of self endpoint params None)) ->
  sends P (get_noise_from self endpoint).
Proof.
  intros HP. unfold get_noise_from.
  apply sends_bind; [apply sends_request, HP|]. intros response.
  apply sends_after_first_page, HP.
Qed.

(** At least the request for the first page is sent. *)
Lemma get_noise_from_first endpoint s :
  (forall params, P (request_of self endpoint params None)) ->
  exists more,
    sent (snd (get_noise_from self endpoint s))
    = sent s ++ request_of self endpoint ∅ None :: more /\ Forall P more.
Proof.
  intros HP. unfold get_noise_from, bind at 1. rewrite _request_run.
  destruct (match script s with [] => _ | r :: _ => outcome r end) as [response | e].
  - destruct (sends_after_first_page endpoint response HP
                {| script := tail (script s);
                   sent := sent s ++ [request_of self endpoint (default ∅ None) None] |})
      as (more & Hsent & Hall).
    exists more. rewrite Hsent. cbn [sent]. rewrite <- app_assoc. auto.
  - exists []. split; [reflexivity | constructor].
Qed.

Lemma sends_get_noise date :
  (forall endpoint params,
      target date = Some endpoint -> P (request_of self endpoint params None)) ->
  sends P (get_noise self date).
Proof.
  intros HP. rewrite get_noise_unfold.
  destruct (target date) as [endpoint|]; [|apply sends_raise].
  apply sends_get_noise_from. intros params. apply HP. reflexivity.
Qed.
End Sends.

Lemma sends_run self op : sends (conforms self) (run self op).
Proof.
  pose proof (request_of_conforms self) as HP.
  destruct op as [date | ip_address | ip_addresses | ip_address |]; cbn [run].
  - apply sends_get_noise. intros endpoint params _. apply HP.
  - unfold get_noise_status.
    apply sends_bind; [apply sends_lift|]. intros _.
    apply sends_bind; [apply sends_request, HP|]. intros result_. apply sends_lift.
  - unfold get_noise_status_bulk.
    destruct ip_addresses as [[| | | | l |] | | |]; try apply sends_raise.
    apply sends_bind; [apply sends_lift|]. intros ips.
    apply sends_bind; [apply sends_request, HP|]. intros results.
    do 2 (apply sends_bind; [apply sends_lift|]; intros ?). apply sends_ret.
  - unfold get_context.
    apply sends_bind; [apply sends_lift|]. intros _.
    apply sends_bind; [apply sends_request, HP|]. intros response. apply sends_ret.
  - unfold get_actors.
    apply sends_bind; [apply sends_request, HP|]. intros response. apply sends_ret.
Qed.

(** C8: every request an operation of the client sends is a GET of
    [https://enterprise.api.greynoise.io/v2/<endpoint>] with the header
    [X-Request-Client] naming the client, the header [key] holding the API key
    of the client, and the timeout of the client. *)
Theorem requests_conform (self : GreyNoise) (op : operation) (s : session) :
  exists requests,
    sent (snd (run self op s)) = sent s ++ requests
    /\ Forall (conforms self) requests.
Proof. apply sends_run. Qed.

(** ** The date of [get_noise] *)

(** Nothing after the choice of the endpoint raises an invalid-argument
    error. *)
Lemma outcome_no_value_error r : no_value_error (outcome r).
Proof.
  intros msg. unfold outcome, response_json.
  destruct (in_range _ _ _); [destruct (decoded r)|]; discriminate.
Qed.

Lemma get_no_value_error v key default : no_value_error (Py.get v key default).
Proof. intros msg. destruct v; discriminate. Qed.

Lemma getitem_no_value_error v key : no_value_error (getitem v key).
Proof.
  intros msg. destruct v as [| | | | | d]; try discriminate.
  cbn. destruct (d !! key); discriminate.
Qed.

Lemma extend_no_value_error v w : no_value_error (extend v w).
Proof.
  intros msg. destruct v; try discriminate. cbn. destruct w; discriminate.
Qed.

Lemma len_no_value_error v : no_value_error (len v).
Proof. intros msg. destruct v; discriminate. Qed.

Lemma bind_no_value_error {S A B} (c : stateful S A) (k : A -> stateful S B) :
  (forall s, no_value_error (fst (c s))) ->
  (forall a s, no_value_error (fst (k a s))) ->
  forall s, no_value_error (fst (bind c k s)).
Proof.
  intros Hc Hk s. unfold bind. specialize (Hc s).
  destruct (c s) as [[a | e] s1]; [apply Hk|].
  intros msg [= ->]. apply (Hc msg). reflexivity.
Qed.

Lemma _request_no_value_error self endpoint params json_ s :
  no_value_error (fst (_request self endpoint params json_ s)).
Proof.
  rewrite _request_run. cbn [fst].
  destruct (script s); [discriminate | apply outcome_no_value_error].
Qed.

Lemma while_not_complete_no_value_error self endpoint pending :
  forall noise_ips offset complete log,
    no_value_error
      (fst (while_not_complete self endpoint noise_ips offset complete pending log)).
Proof.
  induction pending as [| r pending IH]; intros noise_ips offset complete log.
  - cbn [while_not_complete]. destruct (truthy complete); discriminate.
  - pose proof (while_not_complete_unfold self endpoint noise_ips offset complete
                  {| script := r :: pending; sent := log |}) as Hloop.
    cbn [script sent] in Hloop. rewrite Hloop. clear Hloop.
    destruct (truthy complete); [discriminate|].
    rewrite bind_request.
    pose proof (outcome_no_value_error r) as Hr.
    destruct (outcome r) as [response | e];
      [|intros msg [= ->]; apply (Hr msg); reflexivity].
    unfold bind, lift.
    pose proof (get_no_value_error response "noise_ips" (JList [])) as Hmore.
    destruct (Py.get response "noise_ips" (JList [])) as [more | e];
      [|intros msg [= ->]; apply (Hmore msg); reflexivity].
    pose proof (extend_no_value_error noise_ips more) as Hext.
    destruct (extend noise_ips more) as [noise_ips' | e];
      [|intros msg [= ->]; apply (Hext msg); reflexivity].
    pose proof (get_no_value_error response "offset" (JInt (-1))) as Hoff.
    destruct (Py.get response "offset" (JInt (-1))) as [offset' | e];
      [|intros msg [= ->]; apply (Hoff msg); reflexivity].
    pose proof (getitem_no_value_error response "complete") as Hget.
    destruct (getitem response "complete") as [complete' | e];
      [|intros msg [= ->]; apply (Hget msg); reflexivity].
    cbn [script sent]. apply IH.
Qed.

Lemma get_noise_from_no_value_error self endpoint s :
  no_value_error (fst (get_noise_from self endpoint s)).
Proof.
  unfold get_noise_from, after_first_page.
  apply bind_no_value_error; [intros; apply _request_no_value_error|]. intros response ?.
  apply bind_no_value_error; [intros; apply get_no_value_error|]. intros ? ?.
  apply bind_no_value_error; [intros; apply get_no_value_error|]. intros ? ?.
  apply bind_no_value_error; [intros; apply getitem_no_value_error|]. intros ? ?.
  apply bind_no_value_error; [intros; apply while_not_complete_no_value_error|]. intros ? ?.
  apply bind_no_value_error; [intros; apply len_no_value_error|]. intros ? ?.
  discriminate.
Qed.

(** [strftime] writes a date of the calendar as YYYY-MM-DD from the year
    1000 on. *)
Lemma below_forallb (p : Z -> bool) (bound : Z) :
  forallb (fun n => p (Z.of_nat n)) (seq 0 (Z.to_nat bound)) = true ->
  forall n, 0 <= n < bound -> p n = true.
Proof.
  intros Hall n Hn. rewrite forallb_forall in Hall.
  rewrite <- (Z2Nat.id n) by lia. apply Hall, in_seq. lia.
Qed.

Lemma str_int_four n : 1000 <= n < 10000 -> str_int n = four_digits n.
Proof.
  intros Hn. apply String.eqb_eq.
  pose proof (below_forallb
                (fun n => (n <? 1000) || String.eqb (str_int n) (four_digits n)) 10000)
    as Hall.
  specialize (Hall ltac:(vm_compute; reflexivity) n ltac:(lia)). cbv beta in Hall.
  apply orb_prop in Hall as [Hlow | Heq]; [lia | exact Heq].
Qed.

Lemma zero_pad_two n : 0 <= n < 100 -> zero_pad 2 n = two_digits n.
Proof.
  intros Hn. apply String.eqb_eq.
  apply (below_forallb (fun n => String.eqb (zero_pad 2 n) (two_digits n)) 100);
    [vm_compute; reflexivity | exact Hn].
Qed.

Lemma strftime_date_text year month day :
  valid_date year month day = true ->
  strftime_DATE_FORMAT year month day = date_text year month day.
Proof.
  unfold valid_date, days_in_month. intros Hvalid.
  repeat (apply andb_prop in Hvalid as [Hvalid ?]).
  assert (day <= 31).
  { destruct (month =? 2); [destruct (is_leap year)|]; [lia | lia |].
    destruct (_ || _); lia. }
  unfold strftime_DATE_FORMAT, date_text, iso_date.
  rewrite !zero_pad_two by lia.
  destruct (1000 <=? year) eqn:Hyear; [|reflexivity].
  rewrite str_int_four by lia. reflexivity.
Qed.

Lemma target_none date :
  target date = None <-> date <> Plain JNull /\ is_date date = false.
Proof.
  destruct date as [[| | | | |] | | |]; cbn; split;
    try discriminate; try (intros [? ?]; congruence); try (split; congruence).
Qed.




Example get_noise_with_date :
  url <$> sent (snd (get_noise client (DateTime 2019 1 1 0 0 0)
                       (session_of [answer page1; answer page3])))
  = [ "https://enterprise.api.greynoise.io/v2/noise/bulk/2019-01-01";
      "https://enterprise.api.greynoise.io/v2/noise/bulk/2019-01-01" ].
Proof. vm_compute. reflexivity. Qed.

Example get_noise_with_text :
  get_noise client (Plain (JStr "2019-01-01")) (session_of [answer page3])
  = (Raise (ValueError DateMustBeDate), session_of [answer page3]).
Proof. reflexivity. Qed.

(** ** [validate_ip] *)

Example dotted_quads :
  is_dotted_quad <$> ["8.8.8.8"; "255.255.255.255"; "0.0.0.0"; "127.1"; "1.2.3";
                      "01.2.3.4"; "256.1.1.1"; "1.2.3.4.5"; "::1"; "example.com"; ""]
  = [true; true; true; false; false; false; false; false; false; false; false].
Proof. vm_compute. reflexivity. Qed.

Example inet_aton_forms :
  Util.inet_aton <$> ["8.8.8.8"; "127.1"; "0x7f.1"; "1"; "010.0.0.1"; "1.2.3.4 and more";
                      "08.1.1.1"; "1.2.3.4.5"; "256.1.1.1"; "::1"; "2001:db8::1"; "example.com"; ""]
  = [Some 134744072; Some 2130706433; Some 2130706433; Some 1; Some 134217729; Some 16909060;
     None; None; None; None; None; None; None].
Proof. vm_compute. reflexivity. Qed.

Lemma digit_of_decimal c :
  Util.isdigit c = true -> Util.digit_of 10 c = Some (Util.code c - 48).
Proof.
  unfold Util.isdigit, Util.digit_of. intros Hc. rewrite Hc.
  apply andb_prop in Hc as [Hlo Hhi].
  replace (Util.code c - 48 <? 10) with true by lia. reflexivity.
Qed.

Lemma digit_of_hexadecimal base c d :
  base <= 16 -> Util.digit_of base c = Some d -> is_Some (Util.digit_of 16 c).
Proof.
  unfold Util.digit_of. intros Hbase.
  destruct ((48 <=? Util.code c) && (Util.code c <=? 57)) eqn:Hdigit.
  - apply andb_prop in Hdigit as [Hlo Hhi]. intros _.
    replace (Util.code c - 48 <? 16) with true by lia. eauto.
  - destruct ((97 <=? Util.code c) && (Util.code c <=? 122)).
    + destruct (Util.code c - 87 <? base) eqn:Hlt; [|discriminate]. intros _.
      replace (Util.code c - 87 <? 16) with true by lia. eauto.
    + destruct ((65 <=? Util.code c) && (Util.code c <=? 90)); [|discriminate].
      destruct (Util.code c - 55 <? base) eqn:Hlt; [|discriminate]. intros _.
      replace (Util.code c - 55 <? 16) with true by lia. eauto.
Qed.


Lemma strtoul_digits_decimal a :
  forall acc r,
    all_digits a = true -> after_number r ->
    Util.strtoul_digits 10 acc (a +:+ r) = (decimal acc a, r).
Proof.
  induction a as [| c a IH]; intros acc r Hdigits Hr.
  - destruct Hr as [-> | [r' ->]]; reflexivity.
  - cbn in Hdigits. apply andb_prop in Hdigits as [Hc Hdigits].
    simpl.
    rewrite (digit_of_decimal c Hc). apply IH; assumption.
Qed.


Lemma inet_aton_parts_eq free bytes cp :
  Util.inet_aton_parts free bytes cp
  = match cp with
    | EmptyString => None
    | String c _ =>
        if negb (Util.isdigit c) then None
        else
          let '(val, endp) := Util.strtoul cp in
          if 4294967295 <? val then None
          else
            match endp with
            | String dot cp' =>
                if Ascii.eqb dot "." then
                  match free with
                  | O => None
                  | S free' =>
                      if 255 <? val then None
                      else Util.inet_aton_parts free' (bytes ++ [val]) cp'
                  end
                else Some (bytes, val, endp)
            | EmptyString => Some (bytes, val, endp)
            end
    end.
Proof. destruct free; reflexivity. Qed.



Lemma append_empty s : s +:+ "" = s.
Proof.
  induction s as [| c s IH]; [reflexivity|].
  change (String c s +:+ "") with (String c (s +:+ "")). rewrite IH. reflexivity.
Qed.


Lemma split_dots_not_empty s : split_dots s <> [].
Proof.
  destruct s as [| c s]; cbn; [discriminate|].
  destruct (Ascii.eqb c "."); [discriminate|].
  destruct (split_dots s); discriminate.
Qed.

Lemma join_cons c part parts :
  join "." (String c part :: parts) = String c (join "." (part :: parts)).
Proof. destruct parts; reflexivity. Qed.

Lemma join_split_dots s : join "." (split_dots s) = s.
Proof.
  induction s as [| c s IH]; [reflexivity|].
  pose proof (split_dots_not_empty s) as Hne.
  cbn [split_dots]. destruct (Ascii.eqb_spec c ".") as [-> | Hc].
  - destruct (split_dots s) as [| part parts]; [contradiction|].
    change (join "." ("" :: part :: parts)) with ("." +:+ join "." (part :: parts)).
    rewrite IH. reflexivity.
  - destruct (split_dots s) as [| part parts]; [contradiction|].
    rewrite join_cons, IH. reflexivity.
Qed.


Lemma append_cons c s r : String c s +:+ r = String c (s +:+ r).
Proof. reflexivity. Qed.

Lemma all_chars_append p a b :
  all_chars p (a +:+ b) = all_chars p a && all_chars p b.
Proof.
  induction a as [| c a IH]; [reflexivity|].
  rewrite append_cons. cbn [all_chars]. rewrite IH, andb_assoc. reflexivity.
Qed.

(** What [strtoul] and the loop of [inet_aton] read is made of hexadecimal
    digits, [x] and dots. *)
Lemma strtoul_digits_consumed base cp :
  base <= 16 ->
  forall acc v rest,
    Util.strtoul_digits base acc cp = (v, rest) ->
    exists pre, cp = pre +:+ rest /\ all_chars numeric_char pre = true.
Proof.
  intros Hbase. induction cp as [| c cp IH]; intros acc v rest Hrun.
  - injection Hrun as _ <-. exists "". split; reflexivity.
  - cbn [Util.strtoul_digits] in Hrun.
    destruct (Util.digit_of base c) as [d|] eqn:Hd.
    + destruct (IH _ _ _ Hrun) as (pre & -> & Hpre).
      exists (String c pre). split; [reflexivity|].
      cbn [all_chars]. rewrite Hpre, andb_true_r. unfold numeric_char.
      rewrite bool_decide_eq_true_2 by (eapply digit_of_hexadecimal; eassumption).
      reflexivity.
    + injection Hrun as _ <-. exists "". split; reflexivity.
Qed.

Lemma numeric_char_zero c : Ascii.eqb c "0" = true -> numeric_char c = true.
Proof. intros Hc. apply Ascii.eqb_eq in Hc as ->. reflexivity. Qed.

Lemma strtoul_consumed cp v rest :
  Util.strtoul cp = (v, rest) ->
  exists pre, cp = pre +:+ rest /\ all_chars numeric_char pre = true.
Proof.
  unfold Util.strtoul.
  destruct cp as [| c0 [| x [| h tail]]].
  - intros [= _ <-]. exists "". split; reflexivity.
  - destruct (Ascii.eqb c0 "0"); apply strtoul_digits_consumed; lia.
  - destruct (Ascii.eqb c0 "0"); apply strtoul_digits_consumed; lia.
  - destruct (Ascii.eqb c0 "0") eqn:Hc0; [|apply strtoul_digits_consumed; lia].
    destruct ((Ascii.eqb x "x" || Ascii.eqb x "X")
              && bool_decide (is_Some (Util.digit_of 16 h))) eqn:Hhex;
      [|apply strtoul_digits_consumed; lia].
    intros Hrun.
    destruct (strtoul_digits_consumed 16 _ ltac:(lia) _ _ _ Hrun) as (pre & Hcp & Hpre).
    exists (String c0 (String x pre)). rewrite !append_cons, <- Hcp.
    split; [reflexivity|]. cbn [all_chars].
    rewrite Hpre, (numeric_char_zero _ Hc0), andb_true_r. cbn [andb].
    apply andb_prop in Hhex as [Hx _]. unfold numeric_char.
    destruct (Ascii.eqb x "x"), (Ascii.eqb x "X");
      try discriminate; rewrite ?orb_true_r; reflexivity.
Qed.

Lemma inet_aton_parts_consumed free :
  forall bytes cp bytes' val endp,
    Util.inet_aton_parts free bytes cp = Some (bytes', val, endp) ->
    exists pre, cp = pre +:+ endp /\ all_chars numeric_char pre = true.
Proof.
  induction free as [| free IH]; intros bytes cp bytes' val endp;
    rewrite inet_aton_parts_eq;
    (destruct cp as [| c cp]; [discriminate|]);
    (destruct (negb (Util.isdigit c)); [discriminate|]);
    destruct (Util.strtoul (String c cp)) as [v rest] eqn:Hnumber;
    apply strtoul_consumed in Hnumber as (pre & Hcp & Hpre);
    (destruct (4294967295 <? v); [discriminate|]);
    (destruct rest as [| dot cp'];
     [intros [= _ _ <-]; exists pre; split; assumption|]);
    (destruct (Ascii.eqb_spec dot ".") as [-> | Hdot];
     [|intros [= _ _ <-]; exists pre; split; assumption]).
  - discriminate.
  - destruct (255 <? v); [discriminate|]. intros Hrun.
    destruct (IH _ _ _ _ _ Hrun) as (pre' & -> & Hpre').
    exists (pre +:+ String "." pre'). split.
    + rewrite Hcp. clear. induction pre as [| c pre IH]; [reflexivity|].
      rewrite !append_cons, IH. reflexivity.
    + rewrite all_chars_append. cbn [all_chars]. rewrite Hpre, Hpre'. reflexivity.
Qed.

Lemma inet_aton_not_numeric s : not_numeric s = true -> Util.inet_aton s = None.
Proof.
  unfold not_numeric, Util.inet_aton. intros Hforeign.
  destruct (Util.inet_aton_parts 3 [] s) as [[[bytes val] endp]|] eqn:Hparts;
    [|reflexivity].
  apply orb_prop in Hforeign as [Hfirst | Hforeign].
  - rewrite inet_aton_parts_eq in Hparts.
    destruct s as [| c s]; [discriminate|].
    cbn in Hfirst. rewrite Hfirst in Hparts. discriminate.
  - apply andb_prop in Hforeign as [Hspace Hchars].
    apply inet_aton_parts_consumed in Hparts as (pre & -> & Hpre).
    rewrite all_chars_append in Hspace, Hchars.
    apply andb_prop in Hspace as [_ Hspace].
    destruct endp as [| c endp].
    + rewrite Hpre in Hchars. discriminate.
    + cbn in Hspace. apply andb_prop in Hspace as [Hc _].
      apply negb_true_iff in Hc. rewrite Hc, andb_false_r. reflexivity.
Qed.

(** Decimal numbers separated by dots. *)
Lemma is_number_inv a :
  is_number a = true ->
  exists c a', a = String c a' /\ Util.isdigit c = true /\ all_digits a = true.
Proof.
  destruct a as [| c a']; [discriminate|]. unfold is_number. intros Hnumber.
  apply andb_prop in Hnumber as [Hdigits _]. exists c, a'.
  split; [reflexivity|]. split; [|exact Hdigits].
  cbn in Hdigits. apply andb_prop in Hdigits as [Hc _]. exact Hc.
Qed.

Lemma is_octet_number a :
  is_octet a = is_number a && (decimal 0 a <=? 255).
Proof. destruct a; reflexivity. Qed.

Lemma strtoul_number a r :
  is_number a = true -> after_number r ->
  Util.strtoul (a +:+ r) = (decimal 0 a, r).
Proof.
  destruct a as [| c a]; [discriminate|]. unfold is_number.
  intros Hnumber Hr.
  apply andb_prop in Hnumber as [Hdigits Hzero].
  apply orb_prop in Hzero as [Hzero | Hzero].
  - apply String.eqb_eq in Hzero. injection Hzero as -> ->.
    destruct Hr as [-> | [[| h r'] ->]]; reflexivity.
  - rewrite <- (strtoul_digits_decimal (String c a) 0 r Hdigits Hr).
    apply negb_true_iff in Hzero.
    change (String c a +:+ r) with (String c (a +:+ r)). unfold Util.strtoul.
    destruct (a +:+ r) as [| x [| h rest]]; rewrite Hzero; reflexivity.
Qed.

Lemma inet_aton_parts_number_dot free bytes a rest :
  is_number a = true ->
  Util.inet_aton_parts free bytes (a +:+ String "." rest)
  = if 4294967295 <? decimal 0 a then None
    else match free with
         | O => None
         | S free' =>
             if 255 <? decimal 0 a then None
             else Util.inet_aton_parts free' (bytes ++ [decimal 0 a]) rest
         end.
Proof.
  intros Hnumber. rewrite inet_aton_parts_eq.
  rewrite (strtoul_number a (String "." rest) Hnumber) by (right; eauto).
  destruct (is_number_inv a Hnumber) as (c & a' & -> & Hc & _).
  change (String c a' +:+ String "." rest) with (String c (a' +:+ String "." rest)).
  cbv beta iota. rewrite Hc. reflexivity.
Qed.

Lemma inet_aton_parts_number_end free bytes a :
  is_number a = true ->
  Util.inet_aton_parts free bytes a
  = if 4294967295 <? decimal 0 a then None else Some (bytes, decimal 0 a, "").
Proof.
  intros Hnumber. rewrite inet_aton_parts_eq.
  pose proof (strtoul_number a "" Hnumber (or_introl eq_refl)) as Hvalue.
  rewrite append_empty in Hvalue. rewrite Hvalue.
  destruct (is_number_inv a Hnumber) as (c & a' & -> & Hc & _).
  cbv beta iota. rewrite Hc. reflexivity.
Qed.

Lemma join_dot a b parts :
  join "." (a :: b :: parts) = a +:+ String "." (join "." (b :: parts)).
Proof. reflexivity. Qed.

Ltac compare_values :=
  repeat (match goal with
          | |- context [?x <? ?y] => destruct (Z.ltb_spec x y)
          | |- context [?x <=? ?y] => destruct (Z.leb_spec x y)
          end;
          cbn [length app nth Util.max_last negb andb]);
  try reflexivity; try lia.

Lemma inet_aton_joined parts :
  forallb is_number parts = true ->
  accepted (JStr (join "." parts)) = fits (decimal 0 <$> parts).
Proof.
  intros Hparts.
  assert (forall o : option Z, bool_decide (is_Some o) = match o with Some _ => true | None => false end)
    as Hsome.
  { intros [z|]; [apply bool_decide_eq_true_2; eauto|].
    apply bool_decide_eq_false_2. intros [? ?]; discriminate. }
  unfold accepted. rewrite Hsome. unfold Util.inet_aton.
  destruct parts as [| a [| b [| c [| d [| e parts]]]]]; [reflexivity|..];
    cbn [forallb] in Hparts;
    repeat match type of Hparts with
           | _ && _ = true => apply andb_prop in Hparts as [? Hparts]
           end;
    rewrite ?join_dot;
    repeat (rewrite inet_aton_parts_number_dot by assumption);
    cbn [join];
    rewrite ?inet_aton_parts_number_end by assumption;
    cbn [fmap list_fmap fits length app nth Util.max_last negb].
  - compare_values.
  - compare_values.
  - compare_values.
  - compare_values.
  - compare_values.
Qed.

Lemma inet_aton_dotted_decimal s :
  is_dotted_decimal s = true -> accepted (JStr s) = inet_form s.
Proof.
  intros Hs. rewrite <- (join_split_dots s) at 1. apply inet_aton_joined, Hs.
Qed.

Lemma all_digits_nul_free s :
  forallb all_digits (split_dots s) = true -> nul_free s = true.
Proof.
  unfold nul_free. induction s as [| c s IH]; [reflexivity|].
  pose proof (split_dots_not_empty s) as Hne.
  cbn [split_dots contains]. destruct (Ascii.eqb_spec c ".") as [-> | Hc].
  - cbn [forallb all_digits andb]. intros Hs. rewrite (proj1 (negb_true_iff _) (IH Hs)).
    reflexivity.
  - destruct (split_dots s) as [| part parts]; [contradiction|].
    cbn [forallb all_digits]. intros Hs.
    apply andb_prop in Hs as [Hs Hparts]. apply andb_prop in Hs as [Hdigit Hpart].
    assert (forallb all_digits (part :: parts) = true) as Hrest
      by (cbn [forallb]; rewrite Hpart, Hparts; reflexivity).
    apply IH, negb_true_iff in Hrest. rewrite Hrest, orb_false_r.
    destruct (Ascii.eqb_spec c "000") as [-> | _]; [discriminate Hdigit | reflexivity].
Qed.

Lemma dotted_decimal_nul_free s : is_dotted_decimal s = true -> nul_free s = true.
Proof.
  intros Hs. apply all_digits_nul_free. unfold is_dotted_decimal in Hs.
  induction (split_dots s) as [| part parts IH]; [reflexivity|].
  cbn [forallb] in *. apply andb_prop in Hs as [Hpart Hparts].
  rewrite (IH Hparts), andb_true_r.
  destruct (is_number_inv part Hpart) as (_ & _ & _ & _ & Hdigits). exact Hdigits.
Qed.

Lemma dotted_quad_decimal s :
  is_dotted_quad s = true -> is_dotted_decimal s = true /\ inet_form s = true.
Proof.
  unfold is_dotted_quad, is_dotted_decimal, inet_form.
  destruct (split_dots s) as [| a [| b [| c [| d [| e parts]]]]]; try discriminate.
  rewrite !is_octet_number, !andb_true_iff.
  intros ((((Ha & Ha') & Hb & Hb') & Hc & Hc') & Hd & Hd').
  cbn [forallb fmap list_fmap fits].
  rewrite Ha, Ha', Hb, Hb', Hc, Hc', Hd, Hd'. split; reflexivity.
Qed.



Example dotted_decimal_forms :
  (fun s => (is_dotted_decimal s, is_dotted_decimal s && inet_form s, accepted (JStr s)))
    <$> ["8.8.8.8"; "127.1"; "1.2.65535"; "1.2.65536"; "4294967295"; "4294967296";
         "256.1.1.1"; "1.2.3.4.5"; "1..2"; "01.2.3.4"]
  = [(true, true, true); (true, true, true); (true, true, true); (true, false, false);
     (true, true, true); (true, false, false); (true, false, false);
     (true, false, false); (false, false, false); (false, false, true)].
Proof. vm_compute. reflexivity. Qed.


(** ** [load_config] *)

(** A value without [%] is set and read as it is. *)
Lemma remove_escaped_percent_free value :
  contains "%" value = false -> Util.remove_escaped value = value.
Proof.
  induction value as [| a value IH]; [reflexivity|].
  cbn [contains]. intros Hvalue. apply orb_false_elim in Hvalue as [Ha Hvalue].
  cbn [Util.remove_escaped]. destruct value as [| b rest]; [reflexivity|].
  rewrite Ha. cbn [andb]. rewrite (IH Hvalue). reflexivity.
Qed.

Lemma only_references_percent_free value :
  contains "%" value = false -> Util.only_references Util.Text value = true.
Proof.
  induction value as [| c value IH]; [reflexivity|].
  cbn [contains Util.only_references]. intros Hvalue.
  apply orb_false_elim in Hvalue as [-> Hvalue]. exact (IH Hvalue).
Qed.

Lemma before_set_percent_free value :
  percent_free value = true -> Util.before_set value = Ok value.
Proof.
  unfold percent_free, Util.before_set. intros Hvalue.
  apply negb_true_iff in Hvalue.
  rewrite (remove_escaped_percent_free _ Hvalue),
    (only_references_percent_free _ Hvalue).
  reflexivity.
Qed.

Lemma interpolate_percent_free depth map value :
  contains "%" value = false ->
  Util.interpolate (S depth) map Util.Text value = Ok value.
Proof.
  induction value as [| c value IH]; [reflexivity|].
  cbn [contains]. intros Hvalue. apply orb_false_elim in Hvalue as [Hc Hvalue].
  cbn [Util.interpolate]. rewrite Hc.
  cbn [Util.interpolate] in IH. rewrite (IH Hvalue). reflexivity.
Qed.

Lemma before_get_percent_free map value :
  percent_free value = true -> Util.before_get map value = Ok value.
Proof.
  unfold percent_free, Util.before_get, Util.MAX_INTERPOLATION_DEPTH.
  intros Hvalue. apply negb_true_iff in Hvalue.
  apply interpolate_percent_free, Hvalue.
Qed.

Lemma get_raw cp name value :
  Util.optionxform name = name ->
  raw_value cp name = Some value -> percent_free value = true ->
  Util.get cp "greynoise" name = Ok value.
Proof.
  unfold raw_value, Util.get. intros -> Hraw Hvalue.
  destruct (Util.sections cp !! "greynoise") as [options|]; [|discriminate].
  cbn in Hraw. cbv zeta. rewrite Hraw. apply before_get_percent_free, Hvalue.
Qed.

Lemma set_raw cp name value :
  Util.optionxform name = name -> percent_free value = true ->
  is_Some (Util.sections cp !! "greynoise") ->
  exists cp',
    Util.set cp "greynoise" name value = Ok cp'
    /\ is_Some (Util.sections cp' !! "greynoise")
    /\ forall name',
        raw_value cp' name'
        = if decide (name' = name) then Some value else raw_value cp name'.
Proof.
  intros Hname Hvalue [options Hsection]. unfold Util.set.
  rewrite (before_set_percent_free _ Hvalue), Hsection, Hname.
  eexists. split; [reflexivity|]. split.
  - cbn. rewrite lookup_insert_eq. eauto.
  - intros name'. unfold raw_value. cbn. rewrite lookup_insert_eq, Hsection. cbn.
    rewrite !lookup_union. case_decide as Hname'.
    + subst. rewrite lookup_insert_eq. destruct (Util.defaults cp !! name); reflexivity.
    + rewrite lookup_insert_ne by congruence. reflexivity.
Qed.

Lemma parser_of_section file : is_Some (Util.sections (parser_of file) !! "greynoise").
Proof.
  destruct file as [| | file_sections]; cbn; try (rewrite lookup_insert_eq; eauto).
  rewrite lookup_union_with, lookup_delete_ne, lookup_insert_eq by discriminate.
  destruct (file_sections !! "greynoise"); cbn; eauto.
Qed.

Lemma parser_of_raw file name fallback :
  Util.default_items Util.DEFAULT_CONFIG !! name = Some fallback ->
  raw_value (parser_of file) name = Some (default fallback (file_value file name)).
Proof.
  intros Hdefault. unfold raw_value.
  destruct file as [| | file_sections]; cbn.
  - rewrite lookup_insert_eq. cbn. rewrite lookup_union, lookup_empty.
    cbn in Hdefault. rewrite Hdefault. reflexivity.
  - rewrite lookup_insert_eq. cbn. rewrite lookup_union, lookup_empty.
    cbn in Hdefault. rewrite Hdefault. reflexivity.
  - rewrite lookup_union_with, lookup_delete_ne, lookup_insert_eq by discriminate.
    cbn in Hdefault.
    destruct (file_sections !! "greynoise") as [options|]; cbn;
      rewrite !lookup_union, ?lookup_empty, Hdefault;
      destruct (file_sections !! "DEFAULT") as [defaults|]; cbn;
      rewrite ?lookup_empty;
      repeat match goal with
             | |- context [?m !! name] => destruct (m !! name)
             end;
      reflexivity.
Qed.

Lemma overlay_step cp (value : option string) name msg log :
  Util.optionxform name = name -> without_percent value ->
  is_Some (Util.sections cp !! "greynoise") ->
  exists cp' log',
    match value with
    | Some text =>
        Util.LOGGER Util.DEBUG msg ;; lift (Util.set cp "greynoise" name text)
    | None => ret cp
    end log = (Ok cp', log')
    /\ is_Some (Util.sections cp' !! "greynoise")
    /\ forall name',
        raw_value cp' name'
        = match value with
          | Some text => if decide (name' = name) then Some text
                         else raw_value cp name'
          | None => raw_value cp name'
          end.
Proof.
  intros Hname Hvalue Hsection. destruct value as [text|].
  - destruct (set_raw cp name text Hname (Hvalue text eq_refl) Hsection)
      as (cp' & Hset & Hsection' & Hget).
    exists cp', (log ++ [(Util.DEBUG, msg)]).
    unfold bind, Util.LOGGER, lift. rewrite Hset. auto.
  - exists cp, log. auto.
Qed.

(** A text that [int] reads has no [%]. *)
Lemma int_space_not_percent c : Util.int_space c = true -> Ascii.eqb c "%" = false.
Proof. destruct (Ascii.eqb_spec c "%") as [-> | _]; [discriminate | reflexivity]. Qed.

Lemma isdigit_not_percent c : Util.isdigit c = true -> Ascii.eqb c "%" = false.
Proof. destruct (Ascii.eqb_spec c "%") as [-> | _]; [discriminate | reflexivity]. Qed.

Lemma lstrip_percent text :
  contains "%" (Util.lstrip text) = contains "%" text.
Proof.
  induction text as [| c text IH]; [reflexivity|].
  cbn [Util.lstrip]. destruct (Util.int_space c) eqn:Hc; [|reflexivity].
  cbn [contains]. rewrite (int_space_not_percent _ Hc), IH. reflexivity.
Qed.

Lemma blank_percent_free rest : Util.blank rest = true -> contains "%" rest = false.
Proof.
  induction rest as [| c rest IH]; [reflexivity|].
  cbn [Util.blank contains]. intros Hrest. apply andb_prop in Hrest as [Hc Hrest].
  rewrite (int_space_not_percent _ Hc), (IH Hrest). reflexivity.
Qed.

Lemma int_digits_from_percent s :
  forall underscore acc v rest,
    Util.int_digits_from underscore acc s = Some (v, rest) ->
    contains "%" s = contains "%" rest.
Proof.
  induction s as [| c s IH]; intros underscore acc v rest; cbn [Util.int_digits_from].
  - destruct underscore; [discriminate|]. intros [= _ <-]. reflexivity.
  - destruct (Util.isdigit c) eqn:Hdigit.
    + intros Hrun. cbn [contains].
      rewrite (isdigit_not_percent _ Hdigit), (IH _ _ _ _ Hrun). reflexivity.
    + destruct underscore; [discriminate|].
      destruct (Ascii.eqb_spec c "_") as [-> | _].
      * intros Hrun. cbn [contains]. rewrite (IH _ _ _ _ Hrun). reflexivity.
      * intros [= _ <-]. reflexivity.
Qed.

Lemma int_digits_percent_free s v :
  Util.int_digits s = Some v -> contains "%" s = false.
Proof.
  unfold Util.int_digits. destruct s as [| c s]; [discriminate|].
  destruct (Util.isdigit c) eqn:Hdigit; [|discriminate].
  destruct (Util.int_digits_from false (Util.code c - 48) s) as [[v' rest]|] eqn:Hrun;
    [|discriminate].
  destruct (Util.blank rest) eqn:Hblank; [|discriminate]. intros _.
  cbn [contains].
  rewrite (isdigit_not_percent _ Hdigit), (int_digits_from_percent _ _ _ _ _ Hrun).
  apply blank_percent_free, Hblank.
Qed.

Lemma int_percent_free text n : Util.int text = Some n -> percent_free text = true.
Proof.
  unfold Util.int, percent_free. rewrite <- lstrip_percent.
  destruct (Util.lstrip text) as [| c s]; [discriminate|].
  destruct (Ascii.eqb_spec c "-") as [-> | _].
  { destruct (Util.int_digits s) as [v|] eqn:Hs; [|discriminate]. intros _.
    cbn [contains]. rewrite (int_digits_percent_free _ _ Hs). reflexivity. }
  destruct (Ascii.eqb_spec c "+") as [-> | _].
  { intros Hs. cbn [contains]. rewrite (int_digits_percent_free _ _ Hs). reflexivity. }
  intros Hs. rewrite (int_digits_percent_free _ _ Hs). reflexivity.
Qed.

Lemma load_config_run file environ log :
  file <> Util.Malformed -> plain_values file environ ->
  exists log',
    Util.load_config file environ log = (expected_config file environ, log')
    /\ (forall text, environ !! "GREYNOISE_TIMEOUT" = Some text ->
        Util.int text = None -> In timeout_error log').
Proof.
  intros Hfile (Hfk & Hfs & Hft & Hek & Hes). unfold Util.load_config.
  match goal with
  | |- context [bind ?c _] =>
      assert (exists log1, c log = (Ok (parser_of file), log1)) as [log1 Hread]
  end.
  { destruct file; [eexists; reflexivity | contradiction | eexists; reflexivity]. }
  unfold bind at 1. rewrite Hread. clear Hread.
  pose proof (parser_of_section file) as Hsection.
  destruct (overlay_step (parser_of file) (environ !! "GREYNOISE_API_KEY") "api_key"
              "API key found in environment variable: %s" log1 eq_refl Hek Hsection)
    as (cp1 & log2 & Hkey & Hsection1 & Hget1).
  unfold bind at 1. rewrite Hkey. clear Hkey.
  destruct (overlay_step cp1 (environ !! "GREYNOISE_API_SERVER") "api_server"
              "API server found in environment variable: %s" log2 eq_refl Hes Hsection1)
    as (cp2 & log3 & Hserver & Hsection2 & Hget2).
  unfold bind at 1. rewrite Hserver. clear Hserver.
  assert (raw_value cp2 "api_key"
          = Some (default (default "" (file_value file "api_key"))
                          (environ !! "GREYNOISE_API_KEY"))) as Hk.
  { rewrite Hget2, Hget1, (parser_of_raw file "api_key" "") by reflexivity.
    destruct (environ !! "GREYNOISE_API_SERVER"), (environ !! "GREYNOISE_API_KEY");
      reflexivity. }
  assert (raw_value cp2 "api_server"
          = Some (default (default "https://enterprise.api.greynoise.io"
                                   (file_value file "api_server"))
                          (environ !! "GREYNOISE_API_SERVER"))) as Hs.
  { rewrite Hget2, Hget1,
      (parser_of_raw file "api_server" "https://enterprise.api.greynoise.io")
      by reflexivity.
    destruct (environ !! "GREYNOISE_API_SERVER"), (environ !! "GREYNOISE_API_KEY");
      reflexivity. }
  assert (raw_value cp2 "timeout"
          = Some (default "60" (file_value file "timeout"))) as Ht.
  { rewrite Hget2, Hget1, (parser_of_raw file "timeout" "60") by reflexivity.
    destruct (environ !! "GREYNOISE_API_SERVER"), (environ !! "GREYNOISE_API_KEY");
      reflexivity. }
  assert (percent_free (default (default "" (file_value file "api_key"))
                                (environ !! "GREYNOISE_API_KEY")) = true) as Hpk.
  { destruct (environ !! "GREYNOISE_API_KEY"); [apply Hek; reflexivity|].
    destruct (file_value file "api_key"); [apply Hfk; reflexivity | reflexivity]. }
  assert (percent_free (default (default "https://enterprise.api.greynoise.io"
                                         (file_value file "api_server"))
                                (environ !! "GREYNOISE_API_SERVER")) = true) as Hps.
  { destruct (environ !! "GREYNOISE_API_SERVER"); [apply Hes; reflexivity|].
    destruct (file_value file "api_server"); [apply Hfs; reflexivity | reflexivity]. }
  assert (percent_free (default "60" (file_value file "timeout")) = true) as Hpt.
  { destruct (file_value file "timeout"); [apply Hft; reflexivity | reflexivity]. }
  unfold expected_config.
  destruct (environ !! "GREYNOISE_TIMEOUT") as [text|].
  - destruct (Util.int text) as [n|] eqn:Hint.
    + destruct (set_raw cp2 "timeout" text eq_refl (int_percent_free _ _ Hint) Hsection2)
        as (cp3 & Hset & _ & Hget3).
      rewrite bool_decide_eq_true_2 by eauto. rewrite Hint.
      eexists. split; [|intros ? [= <-]; congruence].
      unfold bind, Util.LOGGER, lift, ret, Util.getint. rewrite Hset.
      rewrite (get_raw cp3 "api_key" _ eq_refl
                 ltac:(rewrite Hget3; case_decide; [discriminate | exact Hk]) Hpk).
      rewrite (get_raw cp3 "api_server" _ eq_refl
                 ltac:(rewrite Hget3; case_decide; [discriminate | exact Hs]) Hps).
      rewrite (get_raw cp3 "timeout" text eq_refl
                 ltac:(rewrite Hget3; case_decide; [reflexivity | congruence])
                 (int_percent_free _ _ Hint)).
      rewrite Hint. reflexivity.
    + rewrite bool_decide_eq_false_2 by (intros [? ?]; discriminate).
      eexists. split.
      * unfold bind, Util.LOGGER, lift, ret, Util.getint.
        rewrite (get_raw cp2 "api_key" _ eq_refl Hk Hpk),
          (get_raw cp2 "api_server" _ eq_refl Hs Hps),
          (get_raw cp2 "timeout" _ eq_refl Ht Hpt).
        destruct (Util.int (default "60" (file_value file "timeout"))); reflexivity.
      * intros _ _ _. apply in_or_app. right. left. reflexivity.
  - eexists. split; [|discriminate].
    unfold bind, lift, ret, Util.getint.
    rewrite (get_raw cp2 "api_key" _ eq_refl Hk Hpk),
      (get_raw cp2 "api_server" _ eq_refl Hs Hps),
      (get_raw cp2 "timeout" _ eq_refl Ht Hpt).
    destruct (Util.int (default "60" (file_value file "timeout"))); reflexivity.
Qed.

Lemma expected_config_without_timeout file environ text :
  environ !! "GREYNOISE_TIMEOUT" = Some text -> Util.int text = None ->
  expected_config file environ
  = expected_config file (delete "GREYNOISE_TIMEOUT" environ).
Proof.
  intros Henv Hint. unfold expected_config.
  rewrite Henv, lookup_delete_eq, !lookup_delete_ne by discriminate.
  rewrite bool_decide_eq_false_2 by (rewrite Hint; intros [? ?]; discriminate).
  reflexivity.
Qed.

Lemma plain_values_without_timeout file environ :
  plain_values file environ ->
  plain_values file (delete "GREYNOISE_TIMEOUT" environ).
Proof.
  unfold plain_values. rewrite !lookup_delete_ne by discriminate. auto.
Qed.

Ltac parsed :=
  match goal with
  | |- context [match Util.int ?text with _ => _ end] =>
      destruct (Util.int text);
      intros Hr; [injection Hr as <-; reflexivity | discriminate Hr]
  end.


Ltac given_values :=
  repeat split; intros text Htext; vm_compute in Htext;
  try discriminate Htext; injection Htext as <-; vm_compute;
  first [reflexivity | lia].


Example load_config_log :
  snd (Util.load_config Util.Absent environ2 [])
  = [(Util.WARNING, "Configuration file not found: %s");
     (Util.DEBUG, "API key found in environment variable: %s");
     timeout_error].
Proof. vm_compute. reflexivity. Qed.

(** Why the values are taken without [%]: a key with a lone [%] in the
    environment makes [ConfigParser.set], and so [load_config], raise; [%%]
    is read back as one [%]; an underscore between digits is part of an
    integer. *)
Example load_config_percent :
  fst (Util.load_config Util.Absent {[ "GREYNOISE_API_KEY" := "abc%def" ]} [])
  = Raise (ValueError (InvalidInterpolationSyntax "abc%def"))
  /\ Util.api_key <$> (match fst (Util.load_config Util.Absent
                                    {[ "GREYNOISE_API_KEY" := "abc%%def" ]} []) with
                       | Ok config => Some config
                       | Raise _ => None
                       end)
     = Some "abc%def"
  /\ Util.timeout <$> (match fst (Util.load_config Util.Absent
                                    {[ "GREYNOISE_TIMEOUT" := "1_0" ]} []) with
                       | Ok config => Some config
                       | Raise _ => None
                       end)
     = Some 10.
Proof. vm_compute. repeat split. Qed.

(** * Further properties of the client *)

(** X1: [_request] takes one response and sends one request, a GET of the
    URL of the endpoint with the two headers, the timeout of the client, the
    parameters (none when they are not given) and the payload; a status below
    200 or from 299 on raises the request failure with the status and the
    body, and a status from 200 to 298 gives the value the body decodes to,
    or the decoding error when the body is not JSON. *)
Theorem request_outcomes (self : GreyNoise) (endpoint : string)
    (params : option (gmap string json)) (json_ : option json)
    (r : response) (pending : list response) (log : list request) :
  let run := _request self endpoint params json_
               {| script := r :: pending; sent := log |} in
  snd run
  = {| script := pending;
       sent := log ++ [{| method := "GET";
                          url := "https://enterprise.api.greynoise.io/v2/" +:+ endpoint;
                          headers := {[ "X-Request-Client" := "pyGreyNoise v1";
                                        "key" := api_key self ]};
                          request_timeout := timeout self;
                          Api.params := default ∅ params;
                          json_payload := json_ |}] |}
  /\ (status_code r < 200 \/ 299 <= status_code r ->
      fst run = Raise (RequestFailure (status_code r) (content r)))
  /\ (200 <= status_code r < 299 ->
      fst run = match decoded r with
                | Some v => Ok v
                | None => Raise JSONDecodeError
                end).
Proof.
  intros run. subst run. rewrite _request_step. cbn [fst snd].
  split; [reflexivity|].
  unfold outcome, in_range, response_json. split.
  - intros Hout. replace ((200 <=? status_code r) && (status_code r <? 299))
      with false by lia. reflexivity.
  - intros Hin. replace ((200 <=? status_code r) && (status_code r <? 299))
      with true by lia. reflexivity.
Qed.

(** X2: on an address that [validate_ip] does not accept, a text that
    [inet_aton] refuses or a text with a NUL character, [get_noise_status] and
    [get_context] raise a [ValueError] before anything is sent: the session
    is as it was.  The error is the invalid-argument error of [validate_ip]
    for a text without a NUL character, and the one of [socket.inet_aton]
    itself for a text with one. *)
Theorem single_lookup_refuses_before_request (self : GreyNoise)
    (ip_address : string) (s : session) :
  nul_free ip_address = false \/ Util.inet_aton ip_address = None ->
  let e := ValueError (if nul_free ip_address
                       then InvalidIPAddress (JStr ip_address)
                       else EmbeddedNullCharacter) in
  get_noise_status self ip_address s = (Raise e, s)
  /\ get_context self ip_address s = (Raise e, s).
Proof.
  intros Hrefused e. subst e.
  unfold get_noise_status, get_context, bind, lift.
  rewrite validate_ip_cases.
  destruct (nul_free ip_address); [|split; reflexivity].
  destruct Hrefused as [Hnul | Hrefused]; [discriminate Hnul|].
  unfold accepted. rewrite Hrefused.
  rewrite bool_decide_eq_false_2 by (intros [? ?]; discriminate).
  split; reflexivity.
Qed.

Lemma single_lookup_refuses_before_request_witness :
  get_noise_status client "not-an-ip" (session_of [answer known_code])
  = (Raise (ValueError (if nul_free "not-an-ip"
                        then InvalidIPAddress (JStr "not-an-ip")
                        else EmbeddedNullCharacter)),
     session_of [answer known_code])
  /\ get_context client "not-an-ip" (session_of [answer known_code])
     = (Raise (ValueError (if nul_free "not-an-ip"
                           then InvalidIPAddress (JStr "not-an-ip")
                           else EmbeddedNullCharacter)),
        session_of [answer known_code]).
Proof.
  apply (single_lookup_refuses_before_request client "not-an-ip"
           (session_of [answer known_code])).
  right. reflexivity.
Defined.

Example single_lookup_nul_character :
  get_noise_status client (String "000" "8.8.8.8") (session_of [answer known_code])
  = (Raise (ValueError EmbeddedNullCharacter), session_of [answer known_code]).
Proof. vm_compute. reflexivity. Qed.

(** X3: [get_context] and [get_actors] return the value of the response as
    it is, whatever it is (no [code] is asked for), after one request to
    [noise/context/<address>] and to [research/actors], without parameters
    and without a JSON payload.  (The address is a text without a NUL
    character that is accepted.) *)
Theorem context_and_actors_verbatim (self : GreyNoise) (ip_address : string)
    (r : response) (v : json) (pending : list response) (log : list request) :
  nul_free ip_address = true ->
  is_Some (Util.inet_aton ip_address) ->
  in_range (status_code r) 200 299 = true ->
  decoded r = Some v ->
  get_context self ip_address {| script := r :: pending; sent := log |}
  = (Ok v, {| script := pending;
              sent := log ++ [request_of self ("noise/context/" +:+ ip_address)
                                         ∅ None] |})
  /\ get_actors self {| script := r :: pending; sent := log |}
     = (Ok v, {| script := pending;
                 sent := log ++ [request_of self "research/actors" ∅ None] |}).
Proof.
  intros Hnul Hip Hstatus Hdecoded.
  unfold get_context, get_actors, bind, lift, ret.
  rewrite (validate_ip_accepted _ _ Hnul Hip), !_request_step,
    (outcome_ok _ _ Hstatus Hdecoded).
  split; reflexivity.
Qed.

Lemma context_and_actors_verbatim_witness :
  get_context client "8.8.8.8" {| script := answer no_code :: []; sent := [] |}
  = (Ok no_code,
     {| script := [];
        sent := [] ++ [request_of client ("noise/context/" +:+ "8.8.8.8") ∅ None] |})
  /\ get_actors client {| script := answer no_code :: []; sent := [] |}
     = (Ok no_code,
        {| script := [];
           sent := [] ++ [request_of client "research/actors" ∅ None] |}).
Proof.
  apply (context_and_actors_verbatim client "8.8.8.8" (answer no_code) no_code [] []).
  - reflexivity.
  - some.
  - reflexivity.
  - reflexivity.
Defined.

(** The loop over incomplete pages followed by a response with a failing
    status. *)
Lemma while_not_complete_failure self endpoint failing rest init :
  in_range (status_code failing) 200 299 = false ->
  forall responses acc offset complete log,
    truthy complete = false ->
    Forall2 carries responses init ->
    Forall incomplete_page init ->
    while_not_complete self endpoint (JList acc) offset complete
      (responses ++ failing :: rest) log
    = (Raise (RequestFailure (status_code failing) (content failing)),
       {| script := rest;
          sent := log ++ (offset_request self endpoint
                            <$> (offset :: (page_offset <$> init))) |}).
Proof.
  intros Hfailing.
  induction init as [| page init IH];
    intros responses acc offset complete log Hc Hresp Hinit.
  - apply Forall2_nil_inv_r in Hresp as ->. cbn [app].
    pose proof (while_not_complete_unfold self endpoint (JList acc) offset complete
                  {| script := failing :: rest; sent := log |}) as Hloop.
    cbn [script sent] in Hloop. rewrite Hloop, Hc, bind_request.
    unfold outcome. rewrite Hfailing. reflexivity.
  - apply Forall2_cons_inv_r in Hresp as (r & responses' & Hr & Hresp & ->).
    apply Forall_cons in Hinit as [(Hwf & c & Hcomplete & Hfalse) Hinit].
    cbn [app]. rewrite (while_not_complete_page _ _ _ _ _ _ _ _ _ Hc Hr Hwf), Hcomplete.
    rewrite (IH responses' _ _ _ _ Hfalse Hresp Hinit).
    cbn. rewrite <- app_assoc. reflexivity.
Qed.

(** X4: when a response of the pagination has a failing status, after any
    number of incomplete pages, [get_noise] raises the request failure with
    that status and body; it has sent one request per response taken and
    leaves the later responses alone: there is no retry, and the addresses of
    the pages before are not returned. *)
Theorem get_noise_failure_ends_pagination (self : GreyNoise) (date : pyvalue)
    (endpoint : string) (responses : list response) (init : list json)
    (failing : response) (rest : list response) (log : list request) :
  target date = Some endpoint ->
  Forall2 carries responses init ->
  Forall incomplete_page init ->
  in_range (status_code failing) 200 299 = false ->
  exists requests,
    get_noise self date {| script := responses ++ failing :: rest; sent := log |}
    = (Raise (RequestFailure (status_code failing) (content failing)),
       {| script := rest; sent := log ++ requests |})
    /\ length requests = S (length init).
Proof.
  intros Htarget Hresp Hinit Hfailing.
  exists (request_of self endpoint ∅ None
            :: (offset_request self endpoint <$> (page_offset <$> init))).
  split.
  - destruct init as [| page init].
    + apply Forall2_nil_inv_r in Hresp as ->. cbn [app].
      rewrite (get_noise_first _ _ _ _ _ _ Htarget). unfold outcome.
      rewrite Hfailing. reflexivity.
    + apply Forall2_cons_inv_r in Hresp as (r & responses' & [Hs Hd] & Hresp & ->).
      apply Forall_cons in Hinit as [(Hwf & c & Hcomplete & Hfalse) Hinit].
      cbn [app]. rewrite (get_noise_first _ _ _ _ _ _ Htarget), (outcome_ok _ _ Hs Hd).
      destruct (page_body page [] Hwf) as (d & _ & Hips & _ & Hoff & Hget).
      unfold after_first_page, bind, lift. rewrite Hips, Hoff, Hget, Hcomplete.
      cbn [script sent].
      rewrite (while_not_complete_failure _ _ _ _ _ Hfailing _ _ _ _ _
                 Hfalse Hresp Hinit).
      cbn [app]. rewrite <- app_assoc. reflexivity.
  - cbn. rewrite !length_fmap. reflexivity.
Qed.

Lemma get_noise_failure_ends_pagination_witness :
  exists requests,
    get_noise client (Plain JNull)
      {| script := [answer page1; answer page2] ++ unavailable :: [answer page3];
         sent := [] |}
    = (Raise (RequestFailure (status_code unavailable) (content unavailable)),
       {| script := [answer page3]; sent := [] ++ requests |})
    /\ length requests = S (length [page1; page2]).
Proof.
  apply (get_noise_failure_ends_pagination client (Plain JNull) "noise/bulk"
           [answer page1; answer page2] [page1; page2] unavailable [answer page3] []).
  - reflexivity.
  - repeat constructor.
  - repeat constructor; exists (JBool false); split; vm_compute; reflexivity.
  - reflexivity.
Defined.

(** ** Further properties of the bulk look-up *)

Lemma attach_code_message_text s : attach_code_message (JStr s) = Raise TypeError.
Proof. reflexivity. Qed.

(** X5: when the response to [get_noise_status_bulk] is a JSON object, the
    loop runs over its keys and raises [TypeError] at the first one; only an
    object without keys is returned, as it is.  (The addresses are texts
    without a NUL character.) *)
Theorem bulk_object_response (self : GreyNoise) (ip_addresses : list json)
    (r : response) (d : gmap string json)
    (pending : list response) (log : list request) :
  Forall text_without_nul ip_addresses ->
  in_range (status_code r) 200 299 = true ->
  decoded r = Some (JObj d) ->
  fst (get_noise_status_bulk self (Plain (JList ip_addresses))
         {| script := r :: pending; sent := log |})
  = if bool_decide (d = ∅) then Ok (JObj d) else Raise TypeError.
Proof.
  intros Htexts Hstatus Hdecoded.
  unfold get_noise_status_bulk, bind, lift, ret.
  rewrite (filterM_validate_ip _ Htexts), _request_step,
    (outcome_ok _ _ Hstatus Hdecoded).
  cbn [iterate]. case_bool_decide as Hempty.
  - subst d. rewrite map_to_list_empty. reflexivity.
  - destruct (map_to_list d) as [| [key value] items] eqn:Hitems.
    + apply map_to_list_empty_iff in Hitems. contradiction.
    + reflexivity.
Qed.

Lemma bulk_object_response_witness :
  fst (get_noise_status_bulk client (Plain (JList []))
         {| script := answer error_object :: []; sent := [] |})
  = if bool_decide ({[ "error" := JStr "no results" ]} = (∅ : gmap string json))
    then Ok error_object else Raise TypeError.
Proof.
  apply (bulk_object_response client [] (answer error_object)
           {[ "error" := JStr "no results" ]} [] []).
  - constructor.
  - reflexivity.
  - reflexivity.
Defined.

Example bulk_error_object :
  fst (get_noise_status_bulk client (Plain (JList []))
         (session_of [answer error_object]))
  = Raise TypeError.
Proof. vm_compute. reflexivity. Qed.

(** X6: a list of texts without a NUL character none of which
    [validate_ip] accepts, the empty list among them, does not stop
    [get_noise_status_bulk]: the request is sent, with an empty list of
    addresses. *)
Theorem bulk_sends_empty_list (self : GreyNoise) (ip_addresses : list json)
    (s : session) :
  Forall text_without_nul ip_addresses ->
  Forall (fun ip_address => accepted ip_address = false) ip_addresses ->
  sent (snd (get_noise_status_bulk self (Plain (JList ip_addresses)) s))
  = sent s ++ [request_of self "noise/multi/quick" ∅
                 (Some (JObj {[ "ips" := JList [] ]}))].
Proof.
  intros Htexts Hrefused.
  assert (List.filter accepted ip_addresses = []) as Hnone.
  { clear Htexts. induction Hrefused as [| v l Hv _ IH]; [reflexivity|].
    cbn. rewrite Hv. exact IH. }
  unfold get_noise_status_bulk, bind, lift, ret.
  rewrite (filterM_validate_ip _ Htexts), Hnone, _request_run.
  destruct (match script s with [] => _ | r :: _ => outcome r end) as [results | e];
    [|reflexivity].
  destruct (iterate results) as [items | e]; [|reflexivity].
  destruct (mapM attach_code_message items); reflexivity.
Qed.

Lemma bulk_sends_empty_list_witness :
  sent (snd (get_noise_status_bulk client
               (Plain (JList [JStr "not-an-ip"; JStr "::1"]))
               (session_of [answer (JList [])])))
  = sent (session_of [answer (JList [])])
    ++ [request_of client "noise/multi/quick" ∅
          (Some (JObj {[ "ips" := JList [] ]}))].
Proof.
  apply (bulk_sends_empty_list client [JStr "not-an-ip"; JStr "::1"]
           (session_of [answer (JList [])])).
  - repeat constructor; eexists; split; reflexivity.
  - repeat constructor.
Defined.

(** X7: an element of the list that is not a text is not dropped:
    [validate_ip] raises [TypeError] on it, also in permissive mode, and
    [get_noise_status_bulk] raises it without sending anything.  (The
    elements before it are texts without a NUL character.) *)
Theorem bulk_element_not_text (self : GreyNoise) (before after : list json)
    (v : json) (s : session) :
  Forall text_without_nul before ->
  ~ is_text v ->
  Util.validate_ip v false = Raise TypeError
  /\ get_noise_status_bulk self (Plain (JList (before ++ v :: after))) s
     = (Raise TypeError, s).
Proof.
  intros Hbefore Hv.
  assert (Util.validate_ip v false = Raise TypeError) as Hvalidate.
  { destruct v; try reflexivity. destruct Hv. eexists. reflexivity. }
  split; [exact Hvalidate|].
  unfold get_noise_status_bulk, bind, lift.
  assert (filterM (fun ip_address => Util.validate_ip ip_address false)
                  (before ++ v :: after) = Raise TypeError) as ->; [|reflexivity].
  induction Hbefore as [| u before (text & -> & Htext) _ IH].
  - cbn. rewrite Hvalidate. reflexivity.
  - cbn [app filterM]. rewrite (validate_ip_text _ _ Htext), IH.
    destruct (accepted (JStr text)); reflexivity.
Qed.

Lemma bulk_element_not_text_witness :
  Util.validate_ip JNull false = Raise TypeError
  /\ get_noise_status_bulk client
       (Plain (JList ([JStr "8.8.8.8"] ++ JNull :: [JStr "1.1.1.1"])))
       (session_of [answer (JList [known_code])])
     = (Raise TypeError, session_of [answer (JList [known_code])]).
Proof.
  apply (bulk_element_not_text client [JStr "8.8.8.8"] [JStr "1.1.1.1"] JNull
           (session_of [answer (JList [known_code])])).
  - repeat constructor; eexists; split; reflexivity.
  - intros [text Htext]. discriminate.
Defined.

(** ** What a returned look-up holds *)

Lemma attach_code_message_annotated item item' :
  attach_code_message item = Ok item' -> annotated item item'.
Proof.
  unfold attach_code_message.
  destruct item as [| | | | | d]; try discriminate. cbn [getitem].
  destruct (d !! "code") as [code|] eqn:Hcode; [|discriminate].
  destruct (code_message code) as [m|] eqn:Hm; [|discriminate].
  intros [= <-]. exists d, code, m. repeat split; try assumption.
  unfold code_message in Hm. destruct (str code) as [text|] eqn:Htext; [|discriminate].
  destruct (code_message_scalar code (ex_intro _ text Htext)) as (m' & Hm' & Hspec).
  unfold code_message in Hm'. rewrite Htext in Hm'. congruence.
Qed.

Lemma mapM_attach_annotated items :
  forall items', mapM attach_code_message items = Ok items' ->
                 Forall2 annotated items items'.
Proof.
  induction items as [| item items IH]; intros items'; cbn [mapM].
  - intros [= <-]. constructor.
  - destruct (attach_code_message item) as [item'|] eqn:Hattach; [|discriminate].
    destruct (mapM attach_code_message items) as [rest|]; [|discriminate].
    intros [= <-]. constructor; [apply attach_code_message_annotated, Hattach|].
    apply IH. reflexivity.
Qed.

Lemma mapM_attach_chars s items' :
  mapM attach_code_message (chars s) = Ok items' -> s = "".
Proof. destruct s; [reflexivity | discriminate]. Qed.

(** X8: whatever the server answers, a value that [get_noise_status]
    returns is the dictionary of a response taken as successful, with the
    message of its [code] as [code_message]: the address was accepted, one
    request was sent, and nothing comes back without its message. *)
Theorem returned_status_is_annotated (self : GreyNoise) (ip_address : string)
    (s s' : session) (v : json) :
  get_noise_status self ip_address s = (Ok v, s') ->
  is_Some (Util.inet_aton ip_address)
  /\ exists r item,
      script s = r :: script s'
      /\ sent s' = sent s ++ [request_of self ("noise/quick/" +:+ ip_address) ∅ None]
      /\ in_range (status_code r) 200 299 = true
      /\ decoded r = Some item
      /\ annotated item v.
Proof.
  unfold get_noise_status, bind, lift. rewrite validate_ip_cases.
  destruct (nul_free ip_address); [|discriminate].
  unfold accepted. case_bool_decide as Hip; [|discriminate].
  destruct s as [[| r pending] log]; [discriminate|].
  rewrite _request_step. unfold outcome, response_json.
  destruct (in_range (status_code r) 200 299) eqn:Hstatus; [|discriminate].
  destruct (decoded r) as [item|] eqn:Hdecoded; [|discriminate].
  destruct (attach_code_message item) as [item'|] eqn:Hattach; [|discriminate].
  intros [= <- <-]. split; [exact Hip|].
  exists r, item. cbn [script sent].
  split; [reflexivity|]. split; [reflexivity|]. split; [exact Hstatus|].
  split; [exact Hdecoded|]. apply attach_code_message_annotated, Hattach.
Qed.

Lemma returned_status_is_annotated_witness :
  is_Some (Util.inet_aton "8.8.8.8")
  /\ exists r item,
      script (session_of [answer unknown_code]) = r :: script (session_of [])
      /\ sent {| script := [];
                 sent := [request_of client ("noise/quick/" +:+ "8.8.8.8") ∅ None] |}
         = sent (session_of [answer unknown_code])
           ++ [request_of client ("noise/quick/" +:+ "8.8.8.8") ∅ None]
      /\ in_range (status_code r) 200 299 = true
      /\ decoded r = Some item
      /\ annotated item
           (JObj {[ "ip" := JStr "8.8.8.8"; "code" := JStr "0x99";
                    "code_message" := JStr "Code message unknown: 0x99" ]}).
Proof.
  apply (returned_status_is_annotated client "8.8.8.8"
           (session_of [answer unknown_code])
           {| script := [];
              sent := [request_of client ("noise/quick/" +:+ "8.8.8.8") ∅ None] |}).
  vm_compute. reflexivity.
Defined.

(** X9: whatever the server answers, a value that [get_noise_status_bulk]
    returns is the list of the response with the message of its [code]
    attached to every element, or a response without elements (an empty
    text, an empty object) as it is. *)
Theorem returned_bulk_is_annotated (self : GreyNoise) (ip_addresses : pyvalue)
    (s s' : session) (v : json) :
  get_noise_status_bulk self ip_addresses s = (Ok v, s') ->
  exists r results,
    script s = r :: script s'
    /\ in_range (status_code r) 200 299 = true
    /\ decoded r = Some results
    /\ ((exists items items',
            results = JList items /\ v = JList items'
            /\ Forall2 annotated items items')
        \/ (v = results /\ (results = JStr "" \/ results = JObj ∅))).
Proof.
  unfold get_noise_status_bulk.
  destruct ip_addresses as [[| | | | l |] | | |]; try discriminate.
  unfold bind, lift, ret.
  destruct (filterM _ l) as [ips|]; [|discriminate].
  destruct s as [[| r pending] log]; [discriminate|].
  rewrite _request_step. unfold outcome, response_json.
  destruct (in_range (status_code r) 200 299) eqn:Hstatus; [|discriminate].
  destruct (decoded r) as [results|] eqn:Hdecoded; [|discriminate].
  destruct (iterate results) as [items|] eqn:Hiter; [|discriminate].
  destruct (mapM attach_code_message items) as [items'|] eqn:Hmap; [|discriminate].
  intros [= <- <-]. exists r, results. cbn [script].
  split; [reflexivity|]. split; [exact Hstatus|]. split; [exact Hdecoded|].
  destruct results as [| | | text | items0 | d]; try discriminate;
    injection Hiter as <-.
  - right. split; [reflexivity|]. left. f_equal. eapply mapM_attach_chars, Hmap.
  - left. exists items0, items'. repeat split. apply mapM_attach_annotated, Hmap.
  - right. split; [reflexivity|]. right. f_equal.
    apply map_to_list_empty_iff.
    destruct (map_to_list d) as [| [key value] rest]; [reflexivity | discriminate].
Qed.

Lemma returned_bulk_is_annotated_witness :
  exists r results,
    script (session_of [answer (JList [known_code])]) = r :: script (session_of [])
    /\ in_range (status_code r) 200 299 = true
    /\ decoded r = Some results
    /\ ((exists items items',
            results = JList items
            /\ JList [JObj {[ "ip" := JStr "8.8.8.8"; "code" := JStr "0x05";
                              "code_message" :=
                                JStr "IP is commonly spoofed in Internet-scan activity" ]}]
               = JList items'
            /\ Forall2 annotated items items')
        \/ (JList [JObj {[ "ip" := JStr "8.8.8.8"; "code" := JStr "0x05";
                           "code_message" :=
                             JStr "IP is commonly spoofed in Internet-scan activity" ]}]
            = results /\ (results = JStr "" \/ results = JObj ∅))).
Proof.
  apply (returned_bulk_is_annotated client
           (Plain (JList [JStr "8.8.8.8"; JStr "not-an-ip"]))
           (session_of [answer (JList [known_code])])
           {| script := [];
              sent := [request_of client EP_NOISE_MULTI ∅
                         (Some (JObj {[ "ips" := JList [JStr "8.8.8.8"] ]}))] |}).
  vm_compute. reflexivity.
Defined.

(** ** Further properties of the configuration *)

(** [int] reads back what [str] writes for an integer. *)
Lemma decimal_append a b acc :
  decimal acc (a +:+ b) = decimal (decimal acc a) b.
Proof.
  revert acc. induction a as [| c a IH]; intros acc; [reflexivity|].
  rewrite append_cons. cbn [decimal]. apply IH.
Qed.

Lemma all_digits_append a b :
  all_digits (a +:+ b) = all_digits a && all_digits b.
Proof.
  induction a as [| c a IH]; [reflexivity|].
  rewrite append_cons. cbn [all_digits]. rewrite IH, andb_assoc. reflexivity.
Qed.

Lemma pretty_N_char_digit m :
  (m < 10)%N ->
  Util.isdigit (pretty_N_char m) = true
  /\ Util.code (pretty_N_char m) - 48 = Z.of_N m.
Proof.
  intros Hm.
  assert (m = 0 \/ m = 1 \/ m = 2 \/ m = 3 \/ m = 4 \/ m = 5 \/ m = 6 \/ m = 7
          \/ m = 8 \/ m = 9)%N as Hcases by lia.
  repeat (destruct Hcases as [-> | Hcases]; [split; reflexivity|]).
  subst m. split; reflexivity.
Qed.

Lemma pretty_N_go_digits x :
  forall s, exists digits,
    pretty_N_go x s = digits +:+ s
    /\ all_digits digits = true
    /\ decimal 0 digits = Z.of_N x
    /\ ((0 < x)%N -> digits <> "").
Proof.
  induction (N.lt_wf_0 x) as [x _ IH]. intros s.
  destruct (N.eq_dec x 0%N) as [-> | Hx].
  - exists "". rewrite pretty_N_go_0. repeat split. lia.
  - assert (0 < x)%N as Hpos by lia.
    rewrite pretty_N_go_step by exact Hpos.
    destruct (IH (x `div` 10)%N (N.div_lt x 10 Hpos eq_refl)
                (String (pretty_N_char (x `mod` 10)) s))
      as (digits & -> & Hdigits & Hvalue & _).
    destruct (pretty_N_char_digit (x `mod` 10)%N) as [Hdigit Hcode];
      [apply N.mod_lt; discriminate|].
    exists (digits +:+ String (pretty_N_char (x `mod` 10)) "").
    split; [|split; [|split]].
    + clear. induction digits as [| c digits IH]; [reflexivity|].
      rewrite !append_cons, IH. reflexivity.
    + rewrite all_digits_append, Hdigits. cbn. rewrite Hdigit. reflexivity.
    + rewrite decimal_append, Hvalue. cbn [decimal]. rewrite Hcode.
      rewrite N2Z.inj_div, N2Z.inj_mod.
      pose proof (Z.div_mod (Z.of_N x) 10). change (Z.of_N 10) with 10. lia.
    + intros _. destruct digits; discriminate.
Qed.

Lemma int_digits_from_all_digits digits :
  forall acc,
    all_digits digits = true ->
    Util.int_digits_from false acc digits = Some (decimal acc digits, "").
Proof.
  induction digits as [| c digits IH]; intros acc; [reflexivity|].
  cbn [all_digits Util.int_digits_from decimal]. intros Hdigits.
  apply andb_prop in Hdigits as [-> Hdigits]. apply IH, Hdigits.
Qed.

Lemma int_digits_all_digits digits :
  all_digits digits = true -> digits <> "" ->
  Util.lstrip digits = digits
  /\ Util.int_digits digits = Some (decimal 0 digits)
  /\ exists c rest, digits = String c rest /\ Util.isdigit c = true.
Proof.
  intros Hdigits Hne. destruct digits as [| c rest]; [contradiction|].
  cbn in Hdigits. apply andb_prop in Hdigits as [Hc Hrest].
  assert (Util.int_space c = false) as Hspace.
  { unfold Util.isdigit in Hc. unfold Util.int_space, Util.isspace.
    apply andb_prop in Hc as [Hlo Hhi]. lia. }
  split; [cbn; rewrite Hspace; reflexivity|]. split; [|eauto].
  unfold Util.int_digits. rewrite Hc.
  rewrite (int_digits_from_all_digits rest _ Hrest). reflexivity.
Qed.

Lemma int_str_int n : Util.int (str_int n) = Some n.
Proof.
  unfold str_int, pretty, pretty_Z.
  destruct n as [| p | p]; [reflexivity | |].
  - unfold pretty, pretty_positive, pretty, pretty_N.
    rewrite decide_False by discriminate.
    destruct (pretty_N_go_digits (N.pos p) "") as (digits & Hgo & Hall & Hvalue & Hne).
    rewrite Hgo, append_empty.
    destruct (int_digits_all_digits digits Hall (Hne ltac:(lia)))
      as (Hstrip & Hint & c & rest & -> & Hc).
    unfold Util.int. rewrite Hstrip.
    assert (Ascii.eqb c "-" = false /\ Ascii.eqb c "+" = false) as [-> ->].
    { split; apply Ascii.eqb_neq; intros ->; discriminate. }
    rewrite Hint, Hvalue. reflexivity.
  - unfold pretty, pretty_positive, pretty, pretty_N.
    rewrite decide_False by discriminate.
    destruct (pretty_N_go_digits (N.pos p) "") as (digits & Hgo & Hall & Hvalue & Hne).
    rewrite Hgo, append_empty.
    destruct (int_digits_all_digits digits Hall (Hne ltac:(lia)))
      as (_ & Hint & _).
    unfold Util.int. change (Util.lstrip ("-" +:+ digits)) with (String "-" digits).
    cbn [Ascii.eqb]. rewrite Hint, Hvalue. reflexivity.
Qed.

(** X10: a client built with an API key does not read the configuration,
    whatever the file and the environment hold; one built without a key runs
    [load_config] and takes the key from its result and nothing else: its
    timeout is the argument of the constructor or 7, not the timeout of the
    configuration, and it is not built when [load_config] raises. *)
Theorem client_init (key : string) (timeout : option Z)
    (file : Util.config_file) (environ : gmap string string)
    (log : list Util.log_entry) :
  init (Some key) timeout file environ log
  = (Ok {| api_key := key; timeout := default 7 timeout |}, log)
  /\ init None timeout file environ log
     = (match fst (Util.load_config file environ log) with
        | Ok config =>
            Ok {| api_key := Util.api_key config; timeout := default 7 timeout |}
        | Raise e => Raise e
        end,
        snd (Util.load_config file environ log)).
Proof.
  split; [reflexivity|]. unfold init, bind, ret.
  destruct (Util.load_config file environ log) as [[config | e] log']; reflexivity.
Qed.

Example client_init_timeout :
  fst (init None None config_file1 environ1 [])
  = Ok {| api_key := "key-of-the-environment"; timeout := 7 |}
  /\ fst (init None (Some 3) Util.Malformed environ1 []) = Raise ParsingError
  /\ fst (init (Some "secret") None Util.Malformed environ1 [])
     = Ok {| api_key := "secret"; timeout := 7 |}.
Proof. vm_compute. repeat split. Qed.

(** X11: a timeout of the file that is not an integer makes [load_config]
    raise the error of [int], unless the environment gives a timeout that is
    one: the timeout of the file is not checked as the one of the environment
    is.  (The values are without [%], the timeouts written in ASCII.) *)
Theorem load_config_file_timeout_not_integer (file : Util.config_file)
    (environ : gmap string string) (log : list Util.log_entry) (text : string) :
  plain_values file environ ->
  timeout_texts (file_value file "timeout") ->
  timeout_texts (environ !! "GREYNOISE_TIMEOUT") ->
  file_value file "timeout" = Some text ->
  Util.int text = None ->
  environ !! "GREYNOISE_TIMEOUT" ≫= Util.int = None ->
  fst (Util.load_config file environ log) = Raise (IntValueError text).
Proof.
  intros Hplain _ _ Hfile Htext Henv.
  assert (file <> Util.Malformed) as Hread by (intros ->; discriminate).
  destruct (load_config_run file environ log Hread Hplain) as (log' & -> & _).
  cbn [fst]. unfold expected_config. cbv zeta. rewrite Hfile.
  change (default "60" (Some text)) with text.
  destruct (environ !! "GREYNOISE_TIMEOUT") as [variable|]; cbn in Henv.
  - rewrite bool_decide_eq_false_2 by (rewrite Henv; intros [? ?]; discriminate).
    change (if false then variable else text) with text.
    rewrite Htext. reflexivity.
  - rewrite Htext. reflexivity.
Qed.

Lemma load_config_file_timeout_not_integer_witness :
  fst (Util.load_config config_file2 environ2 []) = Raise (IntValueError "soon").
Proof.
  apply (load_config_file_timeout_not_integer config_file2 environ2 [] "soon");
    [given_values | given_values | given_values
     | reflexivity | reflexivity | reflexivity].
Defined.

(** X12: without the file and without the three variables [load_config]
    returns the defaults and warns that the file was not found; with a file
    that ConfigParser cannot read it raises, whatever the environment. *)
Theorem load_config_without_file (environ any_environ : gmap string string)
    (log : list Util.log_entry) :
  environ !! "GREYNOISE_API_KEY" = None ->
  environ !! "GREYNOISE_API_SERVER" = None ->
  environ !! "GREYNOISE_TIMEOUT" = None ->
  Util.load_config Util.Absent environ log
  = (Ok {| Util.api_key := "";
           Util.api_server := "https://enterprise.api.greynoise.io";
           Util.timeout := 60 |},
     log ++ [(Util.WARNING, "Configuration file not found: %s")])
  /\ fst (Util.load_config Util.Malformed any_environ log) = Raise ParsingError.
Proof.
  intros Hkey Hserver Htimeout. unfold Util.load_config, bind.
  rewrite Hkey, Hserver, Htimeout. split; reflexivity.
Qed.

Lemma load_config_without_file_witness :
  Util.load_config Util.Absent ∅ []
  = (Ok {| Util.api_key := "";
           Util.api_server := "https://enterprise.api.greynoise.io";
           Util.timeout := 60 |},
     [] ++ [(Util.WARNING, "Configuration file not found: %s")])
  /\ fst (Util.load_config Util.Malformed environ1 []) = Raise ParsingError.
Proof.
  apply (load_config_without_file ∅ environ1 []); reflexivity.
Defined.

(** ** [save_config] *)

Lemma set_outcome (cp : Util.config_parser) (section name value : string) :
  Util.set cp section name value
  = if Util.only_references Util.Text (Util.remove_escaped value)
    then match Util.sections cp !! section with
         | Some options =>
             Ok {| Util.defaults := Util.defaults cp;
                   Util.sections :=
                     <[section := <[Util.optionxform name := value]> options]>
                       (Util.sections cp) |}
         | None => Raise NoSectionError
         end
    else Raise (ValueError (InvalidInterpolationSyntax value)).
Proof.
  unfold Util.set, Util.before_set.
  destruct (Util.only_references Util.Text (Util.remove_escaped value)); reflexivity.
Qed.

Lemma set_section (cp : Util.config_parser) (section name value : string)
    (options : gmap string string) :
  percent_free value = true ->
  Util.sections cp !! section = Some options ->
  Util.set cp section name value
  = Ok {| Util.defaults := Util.defaults cp;
          Util.sections :=
            <[section := <[Util.optionxform name := value]> options]>
              (Util.sections cp) |}.
Proof.
  intros Hvalue Hsection. unfold Util.set.
  rewrite (before_set_percent_free _ Hvalue), Hsection. reflexivity.
Qed.

Lemma plain_percent_free text : plain text = true -> percent_free text = true.
Proof.
  unfold plain, percent_free. intros Htext. apply negb_true_iff.
  induction text as [| c text IH]; [reflexivity|].
  cbn [all_chars] in Htext. apply andb_prop in Htext as [Hc Htext].
  apply andb_prop in Hc as [_ Hc]. apply negb_true_iff in Hc.
  cbn [contains]. rewrite Hc, (IH Htext). reflexivity.
Qed.

Lemma all_digits_percent_free digits :
  all_digits digits = true -> contains "%" digits = false.
Proof.
  induction digits as [| c digits IH]; [reflexivity|].
  cbn [all_digits contains]. intros Hdigits.
  apply andb_prop in Hdigits as [Hc Hdigits].
  rewrite (isdigit_not_percent _ Hc), (IH Hdigits). reflexivity.
Qed.

Lemma str_int_percent_free n : percent_free (str_int n) = true.
Proof.
  unfold percent_free. apply negb_true_iff.
  unfold str_int, pretty, pretty_Z.
  destruct n as [| p | p]; [reflexivity | |];
    unfold pretty, pretty_positive, pretty, pretty_N;
    rewrite decide_False by discriminate;
    destruct (pretty_N_go_digits (N.pos p) "") as (digits & Hgo & Hall & _);
    rewrite Hgo, append_empty.
  - apply all_digits_percent_free, Hall.
  - change ("-" +:+ digits) with (String "-" digits). cbn [contains].
    apply all_digits_percent_free, Hall.
Qed.

Lemma save_config_written str_container (d : gmap string json) (k srv : string)
    (timeout : json) (fs : Util.filesystem) :
  d !! "api_key" = Some (JStr k) -> percent_free k = true ->
  d !! "api_server" = Some (JStr srv) -> percent_free srv = true ->
  d !! "timeout" = Some timeout ->
  percent_free (Util.str_value str_container timeout) = true ->
  Util.save_config str_container (JObj d) fs
  = (Ok tt,
     {| Util.config_dir := true;
        Util.config_file_ :=
          Util.Content
            {[ "greynoise" :=
                 <["timeout" := Util.str_value str_container timeout]>
                   (<["api_server" := srv]> {[ "api_key" := k ]}) ]} |}).
Proof.
  intros Hkey Hk Hserver Hsrv Htimeout Ht.
  unfold Util.save_config, bind, lift, getitem.
  rewrite Hkey, Hserver, Htimeout. cbn [Util.set_value].
  rewrite (set_section _ _ _ _ ∅ Hk) by apply lookup_insert_eq.
  rewrite (set_section _ _ _ _ _ Hsrv) by apply lookup_insert_eq.
  rewrite (set_section _ _ _ _ _ Ht) by apply lookup_insert_eq.
  unfold Util.write. cbn [Util.sections Util.defaults Util.add_section Util.ConfigParser].
  rewrite bool_decide_eq_true_2 by reflexivity.
  rewrite !insert_insert_eq.
  destruct fs as [[|] file]; reflexivity.
Qed.



(** X14: a configuration without one of the three fields is not saved:
    [save_config] raises and leaves the file system as it was.  The error is
    the [KeyError] of a field the dictionary lacks, unless a field before it
    holds a value that is not a text ([TypeError]) or a text with a [%] that
    ConfigParser cannot read ([ValueError]). *)
Theorem save_config_incomplete str_container (d : gmap string json)
    (fs : Util.filesystem) :
  d !! "api_key" = None \/ d !! "api_server" = None \/ d !! "timeout" = None ->
  exists e,
    Util.save_config str_container (JObj d) fs = (Raise e, fs)
    /\ (e = TypeError
        \/ (exists value, e = ValueError (InvalidInterpolationSyntax value))
        \/ exists name, e = KeyError name /\ d !! name = None).
Proof.
  intros Hmissing. unfold Util.save_config, bind, lift, getitem.
  destruct (d !! "api_key") as [api_key|] eqn:Hkey;
    [|eexists; split; [reflexivity|right; right; eauto]].
  destruct api_key as [| | |k| |];
    try (eexists; split; [reflexivity|left; reflexivity]).
  cbn [Util.set_value]. rewrite set_outcome.
  destruct (Util.only_references Util.Text (Util.remove_escaped k));
    [|eexists; split; [reflexivity|right; left; eauto]].
  cbn [Util.sections Util.add_section Util.ConfigParser]. rewrite lookup_insert_eq.
  destruct (d !! "api_server") as [api_server|] eqn:Hserver;
    [|eexists; split; [reflexivity|right; right; eauto]].
  destruct api_server as [| | |srv| |];
    try (eexists; split; [reflexivity|left; reflexivity]).
  cbn [Util.set_value]. rewrite set_outcome.
  destruct (Util.only_references Util.Text (Util.remove_escaped srv));
    [|eexists; split; [reflexivity|right; left; eauto]].
  cbn [Util.sections]. rewrite lookup_insert_eq.
  destruct (d !! "timeout") as [timeout|] eqn:Htimeout;
    [|eexists; split; [reflexivity|right; right; eauto]].
  destruct Hmissing as [H|[H|H]]; discriminate H.
Qed.

Lemma save_config_incomplete_witness :
  exists e,
    Util.save_config (fun _ => "") (JObj {[ "api_key" := JStr "<api_key>" ]})
                     example_fs
    = (Raise e, example_fs)
    /\ (e = TypeError
        \/ (exists value, e = ValueError (InvalidInterpolationSyntax value))
        \/ exists name, e = KeyError name
                        /\ ({[ "api_key" := JStr "<api_key>" ]} : gmap string json)
                           !! name = None).
Proof.
  apply (save_config_incomplete _ {[ "api_key" := JStr "<api_key>" ]} example_fs).
  right. left. reflexivity.
Defined.

Example save_config_setup_dictionary :
  Util.save_config (fun _ => "") (JObj {[ "api_key" := JStr "<api_key>" ]}) example_fs
  = (Raise (KeyError "api_server"), example_fs)
  /\ Util.save_config (fun _ => "")
       (JObj {[ "api_key" := JStr "50%"; "api_server" := JStr "https://api.example.org";
                "timeout" := JInt 30 ]}) example_fs
     = (Raise (ValueError (InvalidInterpolationSyntax "50%")), example_fs).
Proof. vm_compute. split; reflexivity. Qed.


